(** * The console logger of Farm's core package

    A shallow embedding of [packages/core/src/utils/logger.ts]: the
    [Logger] class, its test double [NoopLogger], and the two free
    functions [buildErrorMessage] and [printServerUrls], followed by the
    properties the specification states about them.

    Conventions.
    - A JavaScript string is modelled by the bytes of its UTF-8 encoding.
    - A JavaScript [number] is an IEEE-754 value, [spec_float]; its [<=] is
      [SFleb], which is false as soon as one side is NaN.
    - [Error] objects are mutable and compared by identity: they live in a
      heap and values refer to them by location. An object can refuse an
      assignment to [message] or to [cause] (a frozen object, a property
      that is not writable, a getter without a setter); the class is
      strict code, where such an assignment throws a [TypeError].
    - Console writes, screen clears, [process.exit] and [throw] are the
      effects of a small state-and-completion monad [M]. *)

From Stdlib Require Import ZArith String Ascii List Bool Lia.
From Stdlib Require Import Floats.SpecFloat.
From stdpp Require Import base gmap sets list strings pretty.

Open Scope string_scope.
Open Scope list_scope.

(** ** JavaScript values used by the logger *)

(** The line feed, JavaScript's ["\n"]. *)
Definition LF : string := String "010"%char "".

(** [number]: an IEEE-754 double. *)
Definition number : Type := spec_float.

(** [a <= b] on numbers. *)
Definition number_le (a b : number) : bool := SFleb a b.

Definition is_NaN (x : number) : bool :=
  match x with S754_nan => true | _ => false end.

(** The literals [0] to [4] of the default rank table, as binary64 values. *)
Definition num0 : number := S754_zero false.
Definition num1 : number := S754_finite false 4503599627370496 (-52).
Definition num2 : number := S754_finite false 4503599627370496 (-51).
Definition num3 : number := S754_finite false 6755399441055744 (-51).
Definition num4 : number := S754_finite false 4503599627370496 (-50).

(** Truthiness of an optional boolean and of an optional string. *)
Definition truthy_bool (b : option bool) : bool :=
  match b with Some true => true | _ => false end.

Definition truthy_string (s : option string) : bool :=
  match s with Some (String _ _) => true | _ => false end.

(** Heap locations of [Error] objects. *)
Definition loc : Type := nat.

(** [string | Error]: the type of a message. *)
Inductive value : Type :=
  | VStr (s : string)
  | VErr (l : loc).

#[global] Instance value_eq_dec : EqDecision value.
Proof. solve_decision. Defined.

#[global] Instance value_countable : Countable value.
Proof.
  refine (inj_countable'
            (fun v => match v with VStr s => inl s | VErr l => inr l end)
            (fun x => match x with inl s => VStr s | inr l => VErr l end) _).
  intros [s | l]; reflexivity.
Defined.

(** An [Error] object: the fields the logger reads and writes. *)
Module JsError.
Record t : Type := mk {
  name : string;
  message : string;
  stack : option string;     (* [None]: the property is null or absent *)
  cause : option loc;
  (* whether an assignment to the property succeeds; it does not on a
     frozen object, on a property that is not writable or is a getter
     without a setter, or on a missing property of an object that is not
     extensible *)
  message_assignable : bool;
  cause_assignable : bool
}.

(** [new Error(message)] with the given captured stack: an ordinary
    object, all of whose properties can be assigned. *)
Definition create (msg : string) (stk : option string) : t :=
  {| name := "Error"; message := msg; stack := stk; cause := None;
     message_assignable := true; cause_assignable := true |}.

(** [Error.prototype.toString]. *)
Definition toString (o : t) : string :=
  match name o, message o with
  | "", msg => msg
  | nm, "" => nm
  | nm, msg => nm +:+ ": " +:+ msg
  end.

Definition set_message (msg : string) (o : t) : t :=
  {| name := name o; message := msg; stack := stack o; cause := cause o;
     message_assignable := message_assignable o;
     cause_assignable := cause_assignable o |}.

Definition set_cause (c : option loc) (o : t) : t :=
  {| name := name o; message := message o; stack := stack o; cause := c;
     message_assignable := message_assignable o;
     cause_assignable := cause_assignable o |}.
End JsError.

(** ** Log levels *)

(** [enum LogLevel], whose members are the strings of [LogLevelNames]. *)
Inductive LogLevel : Type := Trace | Debug | Info | Warn | Error.

#[global] Instance LogLevel_eq_dec : EqDecision LogLevel.
Proof. solve_decision. Defined.

(** A record with one entry per level name: [Record<LogLevelNames, A>]. *)
Module PerLevel.
Record t (A : Type) : Type := mk {
  trace : A; debug : A; info : A; warn : A; error : A
}.
Arguments mk {A}.
Arguments trace {A}.
Arguments debug {A}.
Arguments info {A}.
Arguments warn {A}.
Arguments error {A}.

(** [r[level]]. *)
Definition get {A} (r : t A) (level : LogLevel) : A :=
  match level with
  | Trace => trace r | Debug => debug r | Info => info r
  | Warn => warn r | Error => error r
  end.
End PerLevel.

(** The methods of the global [console] the logger selects from. *)
Inductive ConsoleMethod : Type := console_log | console_warn | console_error.

(** [LOGGER_METHOD]: an object with the keys [info], [warn] and [error]. *)
Definition LOGGER_METHOD (level : LogLevel) : option ConsoleMethod :=
  match level with
  | Info => Some console_log
  | Warn => Some console_warn
  | Error => Some console_error
  | Trace | Debug => None
  end.

(** ** The collaborators that are imported, not defined, by the module *)

Definition ColorFunction : Type := string -> string.

(** The [colors] object of [./color.js]. A colour function is applied to
    the string form of its argument. *)
Module Colors.
Record t : Type := mk {
  green : ColorFunction; debugColor : ColorFunction;
  brandColor : ColorFunction; yellow : ColorFunction;
  red : ColorFunction; magenta : ColorFunction; blue : ColorFunction;
  cyan : ColorFunction; bold : ColorFunction; dim : ColorFunction
}.
End Colors.

(** What the module takes from its host: the colour functions, [pad] of
    [./share.js], and the stack text the engine captures for a
    [new Error(message)]. *)
Class Host : Type := {
  colors : Colors.t;
  pad : string -> string;
  captureStack : string -> string
}.

(** [process.stdout.isTTY] and [process.env.CI], read by the constructor. *)
Record Process : Type := {
  isTTY : bool;
  CI : option string
}.

(** ** Options *)

Module LoggerOptions.
(** [customLogger] is declared but read nowhere in the module; it is left
    out of the record. *)
Record t : Type := mk {
  prefix : option string;
  allowClearScreen : option bool;
  brandColor : option ColorFunction;
  exit : option bool
}.

(** [{}] *)
Definition empty : t :=
  {| prefix := None; allowClearScreen := None; brandColor := None;
     exit := None |}.

Definition set_prefix (p : option string) (o : t) : t :=
  {| prefix := p; allowClearScreen := allowClearScreen o;
     brandColor := brandColor o; exit := exit o |}.
End LoggerOptions.

(** An optional property of an object literal: an object may lack the
    property, or own it with a value that can be [undefined]. The
    difference shows under object spread. *)
Inductive property (A : Type) : Type :=
  | Absent
  | Own (v : option A).
Arguments Absent {A}.
Arguments Own {A}.

(** Reading [o.p]. *)
Definition read {A} (p : property A) : option A :=
  match p with Absent => None | Own v => v end.

Module ErrorOptions.
Record t : Type := mk {
  exit : property bool;
  e : option loc;
  error : option loc
}.
End ErrorOptions.

(** ** The world: heap, output and the three module-level sets *)

Inductive Event : Type :=
  | EvClear                                        (* [clearScreen()] *)
  | EvConsole (method : ConsoleMethod) (text : string).

Record World : Type := mkWorld {
  heap : list JsError.t;
  events : list Event;
  warnOnceMessages : gset value;
  infoOnceMessages : gset value;
  errorOnceMessages : gset value
}.

(** The world at module load: the three sets are new and empty. *)
Definition initial_World : World :=
  {| heap := []; events := []; warnOnceMessages := ∅;
     infoOnceMessages := ∅; errorOnceMessages := ∅ |}.

(** What a [throw] carries. *)
Inductive Thrown : Type :=
  | ThrownError (l : loc)
  | TypeError_reading_undefined (prop : string)
  | TypeError_assigning (prop : string).

(** How a call ends. [Stuck] is no JavaScript behaviour: it is the model's
    answer when a location refers to no object, which no program can
    bring about. *)
Inductive Completion (A : Type) : Type :=
  | Returns (a : A)
  | Throws (t : Thrown)
  | Exits (code : Z)
  | Stuck.
Arguments Returns {A}.
Arguments Throws {A}.
Arguments Exits {A}.
Arguments Stuck {A}.

Definition M (A : Type) : Type := World -> Completion A * World.

#[global] Instance M_ret : MRet M := fun A a w => (Returns a, w).

#[global] Instance M_bind : MBind M := fun A B f m w =>
  match m w with
  | (Returns a, w') => f a w'
  | (Throws t, w') => (Throws t, w')
  | (Exits c, w') => (Exits c, w')
  | (Stuck, w') => (Stuck, w')
  end.

Definition throw {A} (t : Thrown) : M A := fun w => (Throws t, w).

(** [process.exit(code)] *)
Definition process_exit {A} (code : Z) : M A := fun w => (Exits code, w).

Definition emit (ev : Event) : M unit := fun w =>
  (Returns tt,
   {| heap := heap w; events := events w ++ [ev];
      warnOnceMessages := warnOnceMessages w;
      infoOnceMessages := infoOnceMessages w;
      errorOnceMessages := errorOnceMessages w |}).

Definition set_heap (h : list JsError.t) (w : World) : World :=
  {| heap := h; events := events w;
     warnOnceMessages := warnOnceMessages w;
     infoOnceMessages := infoOnceMessages w;
     errorOnceMessages := errorOnceMessages w |}.

(** Allocation of a new object; its location is the next free one. *)
Definition alloc (o : JsError.t) : M loc := fun w =>
  (Returns (length (heap w)), set_heap (heap w ++ [o]) w).

Definition deref (l : loc) : M JsError.t := fun w =>
  match heap w !! l with
  | Some o => (Returns o, w)
  | None => (Stuck, w)
  end.

(** The assignment [o.prop = v] in strict code, for the object at [l]:
    when the object lets [prop] be assigned it becomes [o'], otherwise a
    [TypeError] is thrown and nothing changes. *)
Definition assign (l : loc) (prop : string)
    (assignable : JsError.t -> bool) (o' : JsError.t) : M unit := fun w =>
  match heap w !! l with
  | Some o =>
      if assignable o then
        (Returns tt, set_heap (<[l := o']> (heap w)) w)
      else (Throws (TypeError_assigning prop), w)
  | None => (Stuck, w)
  end.

(** String coercion of a message: a string is itself, an [Error] object
    goes through its [toString]. *)
Definition toStr (message : value) : M string :=
  match message with
  | VStr s => mret s
  | VErr l => o ← deref l; mret (JsError.toString o)
  end.

(** [for (const x of xs) body(x)] *)
Fixpoint forEach {A} (xs : list A) (body : A -> M unit) : M unit :=
  match xs with
  | [] => mret tt
  | x :: rest => body x ;; forEach rest body
  end.

(** ** The interface [ILogger] *)

Module ILogger.
Record t : Type := mk {
  trace : string -> M unit;
  debug : string -> M unit;
  info : string -> M unit;
  warn : string -> M unit;
  warnOnce : string -> M unit;
  errorOnce : value -> M unit;
  error : value -> option ErrorOptions.t -> M unit
}.
End ILogger.

(** ** The class [Logger] *)

Module Logger.

(** The function held by the private field [clear]. *)
Inductive ClearFn : Type := clearScreen | clearNothing.

Record t : Type := mk {
  options : LoggerOptions.t;
  levelValues : PerLevel.t number;
  canClearScreen : bool;
  clear : ClearFn;
  colorMap : PerLevel.t ColorFunction
}.

Definition set_options (o : LoggerOptions.t) (this : t) : t :=
  {| options := o; levelValues := levelValues this;
     canClearScreen := canClearScreen this; clear := clear this;
     colorMap := colorMap this |}.

(** The default value of the constructor's second parameter. *)
Definition defaultLevelValues : PerLevel.t number :=
  {| PerLevel.trace := num0; PerLevel.debug := num1; PerLevel.info := num2;
     PerLevel.warn := num3; PerLevel.error := num4 |}.

(** Calling the function held by [clear]. *)
Definition call_clear (f : ClearFn) : M unit :=
  match f with
  | clearScreen => emit EvClear
  | clearNothing => mret tt
  end.

(** The test of [logMessage]: [this.levelValues[level] <=
    this.levelValues[level]]. *)
Definition levelFilter (this : t) (level : LogLevel) : bool :=
  number_le (PerLevel.get (levelValues this) level)
            (PerLevel.get (levelValues this) level).

(** [`${this.options.prefix} `]: an undefined prefix prints as its name. *)
Definition prefixText (this : t) : string :=
  default "undefined" (LoggerOptions.prefix (options this)) +:+ " ".

Section WithHost.
Context `{Host}.

Definition brandPrefix (color : option ColorFunction) (this : t) : t :=
  let prefix := default "Farm" (LoggerOptions.prefix (options this)) in
  let formattedName := Colors.bold colors prefix in
  let formattedPrefix :=
    Colors.bold colors ("[ " +:+ formattedName +:+ " ]") in
  set_options
    (LoggerOptions.set_prefix
       (Some (match color with
              | Some c => c formattedPrefix
              | None => formattedPrefix
              end))
       (options this))
    this.

(** [new Logger(options, levelValues)]; an argument left out is [None]. *)
Definition new (options : option LoggerOptions.t)
    (levelValues : option (PerLevel.t number)) (proc : Process) : t :=
  let options := default LoggerOptions.empty options in
  let canClearScreen :=
    truthy_bool (LoggerOptions.allowClearScreen options)
    && isTTY proc && negb (truthy_string (CI proc)) in
  brandPrefix None
    {| options := options;
       levelValues := default defaultLevelValues levelValues;
       canClearScreen := canClearScreen;
       clear := if canClearScreen then clearScreen else clearNothing;
       colorMap :=
         {| PerLevel.trace := Colors.green colors;
            PerLevel.debug := Colors.debugColor colors;
            PerLevel.info := Colors.brandColor colors;
            PerLevel.warn := Colors.yellow colors;
            PerLevel.error := Colors.red colors |} |}.

Definition logMessage (this : t) (level : LogLevel) (message : value)
    (color : option ColorFunction) (showBanner : bool) : M unit :=
  let loggerMethod := default console_log (LOGGER_METHOD level) in
  if levelFilter this level then
    (if canClearScreen this then call_clear (clear this) else mret tt) ;;
    let prefix := if showBanner then prefixText this else "" in
    let prefixColor := PerLevel.get (colorMap this) level in
    loggerMessage ← match color with
                    | Some c => s ← toStr message; mret (c s)
                    | None => toStr message
                    end;
    emit (EvConsole loggerMethod (prefixColor prefix +:+ loggerMessage))
  else mret tt.

Definition setPrefix (options : LoggerOptions.t) (this : t) : t :=
  if truthy_string (LoggerOptions.prefix options) then
    brandPrefix (LoggerOptions.brandColor options)
      (set_options
         (LoggerOptions.set_prefix (LoggerOptions.prefix options)
            (Logger.options this))
         this)
  else this.

Definition trace (this : t) (message : string) : M unit :=
  logMessage this Trace (VStr message) (Some (Colors.magenta colors)) true.

Definition debug (this : t) (message : string) : M unit :=
  logMessage this Debug (VStr message) (Some (Colors.blue colors)) true.

Definition info (this : t) (message : string) : M unit :=
  logMessage this Info (VStr message) None true.

Definition warn (this : t) (message : string) : M unit :=
  logMessage this Warn (VStr message) (Some (Colors.yellow colors)) true.

(** [errorOptions?.e || errorOptions?.error] *)
Definition causeOf (errorOptions : option ErrorOptions.t) : option loc :=
  match errorOptions with
  | None => None
  | Some eo =>
      match ErrorOptions.e eo with
      | Some c => Some c
      | None => ErrorOptions.error eo
      end
  end.

(** The [exit] property of [{ ...this.options, ...errorOptions }]. *)
Definition effectiveExit (this : t) (errorOptions : option ErrorOptions.t)
    : option bool :=
  match errorOptions with
  | Some eo =>
      match ErrorOptions.exit eo with
      | Own v => v
      | Absent => LoggerOptions.exit (options this)
      end
  | None => LoggerOptions.exit (options this)
  end.

(** [causeError.stack ?? causeError], inside a template literal. *)
Definition causeText (c : JsError.t) : string :=
  match JsError.stack c with
  | Some s => s
  | None => JsError.toString c
  end.

Definition error (this : t) (message : value)
    (errorOptions : option ErrorOptions.t) : M unit :=
  let effectiveExit := effectiveExit this errorOptions in
  let causeError := causeOf errorOptions in
  error ← match message with
          | VStr s => alloc (JsError.create s (Some ""))
          | VErr l => mret l
          end;
  match causeError with
  | Some c =>
      target ← deref error;
      co ← deref c;
      assign error "message" JsError.message_assignable
        (JsError.set_message
           (JsError.message target +:+ LF +:+ "Caused by: " +:+ causeText co)
           target)
  | None => mret tt
  end ;;
  logMessage this Error (VErr error) (Some (Colors.red colors)) true ;;
  if truthy_bool effectiveExit then process_exit 1 else mret tt.

Definition record_info (v : value) : M unit := fun w =>
  (Returns tt,
   {| heap := heap w; events := events w;
      warnOnceMessages := warnOnceMessages w;
      infoOnceMessages := {[ v ]} ∪ infoOnceMessages w;
      errorOnceMessages := errorOnceMessages w |}).

Definition record_warn (v : value) : M unit := fun w =>
  (Returns tt,
   {| heap := heap w; events := events w;
      warnOnceMessages := {[ v ]} ∪ warnOnceMessages w;
      infoOnceMessages := infoOnceMessages w;
      errorOnceMessages := errorOnceMessages w |}).

Definition record_error (v : value) : M unit := fun w =>
  (Returns tt,
   {| heap := heap w; events := events w;
      warnOnceMessages := warnOnceMessages w;
      infoOnceMessages := infoOnceMessages w;
      errorOnceMessages := {[ v ]} ∪ errorOnceMessages w |}).

(** [set.has(v)] on one of the three sets. *)
Definition has (set : World -> gset value) (v : value) : M bool := fun w =>
  (Returns (bool_decide (v ∈ set w)), w).

Definition infoOnce (this : t) (message : string) : M unit :=
  seen ← has infoOnceMessages (VStr message);
  if negb seen then
    record_info (VStr message) ;; info this message
  else mret tt.

Definition warnOnce (this : t) (message : string) : M unit :=
  seen ← has warnOnceMessages (VStr message);
  if negb seen then
    record_warn (VStr message) ;; warn this message
  else mret tt.

Definition errorOnce (this : t) (message : value) : M unit :=
  seen ← has errorOnceMessages message;
  if negb seen then
    record_error message ;; error this message None
  else mret tt.

Definition hasErrorLogged (this : t) (message : value) : M bool :=
  has errorOnceMessages message.

Definition hasWarnLogged (this : t) (message : string) : M bool :=
  has warnOnceMessages (VStr message).

(** A [Logger] seen through the interface. *)
Definition as_ILogger (this : t) : ILogger.t :=
  {| ILogger.trace := trace this; ILogger.debug := debug this;
     ILogger.info := info this; ILogger.warn := warn this;
     ILogger.warnOnce := warnOnce this;
     ILogger.errorOnce := errorOnce this;
     ILogger.error := error this |}.

End WithHost.
End Logger.

(** ** The class [NoopLogger]

    It extends [Logger] and overrides every public method; none of the
    overriding bodies reads [this]. *)

Module NoopLogger.
Section WithHost.
Context `{Host}.

Definition setPrefix (_options : LoggerOptions.t) : M unit := mret tt.
Definition trace (_message : string) : M unit := mret tt.
Definition debug (_message : string) : M unit := mret tt.
Definition info (_message : string) : M unit := mret tt.
Definition warn (_message : string) : M unit := mret tt.

Definition error (_message : value) (_errorOptions : option ErrorOptions.t)
    : M unit :=
  match _errorOptions with
  | None =>
      (* [_errorOptions.exit] with [_errorOptions] undefined *)
      throw (TypeError_reading_undefined "exit")
  | Some eo =>
      if truthy_bool (read (ErrorOptions.exit eo)) then
        e ← match _message with
            | VErr l => mret l
            | VStr s => alloc (JsError.create s (Some (captureStack s)))
            end;
        match Logger.causeOf _errorOptions with
        | Some c =>
            o ← deref e;
            assign e "cause" JsError.cause_assignable
              (JsError.set_cause (Some c) o)
        | None => mret tt
        end ;;
        throw (ThrownError e)
      else mret tt
  end.

Definition infoOnce (_message : string) : M unit := mret tt.
Definition warnOnce (_message : string) : M unit := mret tt.
Definition errorOnce (_message : value) : M unit := mret tt.
Definition hasErrorLogged (_message : value) : M bool := mret false.
Definition hasWarnLogged (_message : string) : M bool := mret false.

Definition as_ILogger : ILogger.t :=
  {| ILogger.trace := trace; ILogger.debug := debug;
     ILogger.info := info; ILogger.warn := warn;
     ILogger.warnOnce := warnOnce; ILogger.errorOnce := errorOnce;
     ILogger.error := error |}.

End WithHost.
End NoopLogger.

(** [bootstrapLogger(options)] *)
Definition bootstrapLogger `{Host} (options : option LoggerOptions.t)
    (proc : Process) : Logger.t :=
  Logger.new options None proc.

(** [export const logger = new Logger()] *)
Definition logger `{Host} (proc : Process) : Logger.t :=
  Logger.new None None proc.

(** ** String operations of the language used below *)

(** [s.split(/\n/g)] *)
Fixpoint split_LF (s : string) : list string :=
  match s with
  | EmptyString => [EmptyString]
  | String c rest =>
      if Ascii.eqb c "010" then EmptyString :: split_LF rest
      else match split_LF rest with
           | first :: others => String c first :: others
           | [] => [String c EmptyString]
           end
  end.

(** [xs.join(sep)] *)
Fixpoint join (sep : string) (xs : list string) : string :=
  match xs with
  | [] => ""
  | [x] => x
  | x :: rest => x +:+ sep +:+ join sep rest
  end.

(** The class [\s] on UTF-8 bytes. One byte: TAB, LF, VT, FF, CR, space. *)
Definition ws1 (c1 : ascii) : bool :=
  let b1 := N_of_ascii c1 in
  ((9 <=? b1) && (b1 <=? 13) || (b1 =? 32))%N.

(** Two bytes: U+00A0. *)
Definition ws2 (c1 c2 : ascii) : bool :=
  ((N_of_ascii c1 =? 194) && (N_of_ascii c2 =? 160))%N.

(** Three bytes: U+1680, U+2000 to U+200A, U+2028, U+2029, U+202F, U+205F,
    U+3000 and U+FEFF. *)
Definition ws3 (c1 c2 c3 : ascii) : bool :=
  let b1 := N_of_ascii c1 in
  let b2 := N_of_ascii c2 in
  let b3 := N_of_ascii c3 in
  ((b1 =? 225) && (b2 =? 154) && (b3 =? 128)
   || (b1 =? 226) && (b2 =? 128)
      && ((128 <=? b3) && (b3 <=? 138) || (b3 =? 168) || (b3 =? 169)
          || (b3 =? 175))
   || (b1 =? 226) && (b2 =? 129) && (b3 =? 159)
   || (b1 =? 227) && (b2 =? 128) && (b3 =? 128)
   || (b1 =? 239) && (b2 =? 187) && (b3 =? 191))%N.

(** What is left of [s] after its longest prefix matching [\s*]. *)
Fixpoint skip_ws (s : string) : string :=
  match s with
  | String c1 r1 =>
      if ws1 c1 then skip_ws r1
      else match r1 with
           | String c2 r2 =>
               if ws2 c1 c2 then skip_ws r2
               else match r2 with
                    | String c3 r3 =>
                        if ws3 c1 c2 c3 then skip_ws r3 else s
                    | EmptyString => s
                    end
           | EmptyString => s
           end
  | EmptyString => s
  end.

(** [/^\s*at/.test(l)] *)
Definition test_at (l : string) : bool := String.prefix "at" (skip_ws l).

(** [\d] *)
Definition is_digit (c : ascii) : bool :=
  ((48 <=? N_of_ascii c) && (N_of_ascii c <=? 57))%N.

(** The longest run of digits that starts [s], and the rest. *)
Fixpoint span_digits (s : string) : string * string :=
  match s with
  | String c rest =>
      if is_digit c then
        let (ds, tl) := span_digits rest in (String c ds, tl)
      else (EmptyString, s)
  | EmptyString => (EmptyString, EmptyString)
  end.

(** [url.replace(/:(\d+)\//, (_, port) => `:${f(port)}/`)]: the leftmost
    colon that is followed by digits and a slash. *)
Fixpoint replace_port (f : string -> string) (url : string) : string :=
  match url with
  | EmptyString => EmptyString
  | String c rest =>
      if Ascii.eqb c ":" then
        match span_digits rest with
        | (String d ds, String slash tl) =>
            if Ascii.eqb slash "/" then
              ":" +:+ f (String d ds) +:+ "/" +:+ tl
            else String c (replace_port f rest)
        | _ => String c (replace_port f rest)
        end
      else String c (replace_port f rest)
  end.

(** ** [buildErrorMessage] and [cleanStack] *)

(** The failure object, typed [any] in the source: the fields the function
    reads, each of which may be missing. *)
Module Failure.
Record position : Type := mkPosition { line : N; column : N }.

Record t : Type := mk {
  plugin : option string;
  loc : option position;
  id : option string;
  frame : option string;
  stack : option string
}.
End Failure.

Definition cleanStack (stack : string) : string :=
  join LF (filter (fun l => test_at l = true) (split_LF stack)).

(** [xs.push(x)] *)
Definition push {A} (xs : list A) (x : A) : list A := (xs ++ [x])%list.

(** The value of a field when it is truthy. *)
Definition truthy (s : option string) : option string :=
  match s with
  | Some (String c r) => Some (String c r)
  | _ => None
  end.

Section WithHost.
Context `{Host}.

(** The array [args] after the four conditional pushes. *)
Definition buildErrorArgs (err : Failure.t) (args : list string)
    (includeStack : bool) : list string :=
  let args :=
    match truthy (Failure.plugin err) with
    | Some plugin =>
        push args ("  Plugin: " +:+ Colors.magenta colors plugin)
    | None => args
    end in
  let loc :=
    match Failure.loc err with
    | Some p =>
        ":" +:+ pretty (Failure.line p) +:+ ":" +:+ pretty (Failure.column p)
    | None => ""
    end in
  let args :=
    match truthy (Failure.id err) with
    | Some id => push args ("  File: " +:+ Colors.cyan colors id +:+ loc)
    | None => args
    end in
  let args :=
    match truthy (Failure.frame err) with
    | Some frame => push args (Colors.yellow colors (pad frame))
    | None => args
    end in
  let args :=
    match (if includeStack then truthy (Failure.stack err) else None) with
    | Some stack => push args (pad (cleanStack stack))
    | None => args
    end in
  args.

(** [buildErrorMessage(err, args = [], includeStack = true)] *)
Definition buildErrorMessage (err : Failure.t) (args : option (list string))
    (includeStack : option bool) : string :=
  join LF (buildErrorArgs err (default [] args) (default true includeStack)).

(** ** [printServerUrls] *)

Definition colorUrl (url : string) : string :=
  Colors.cyan colors (replace_port (Colors.bold colors) url).

End WithHost.

(** [ResolvedServerUrls] of [./http.js]. *)
Module ResolvedServerUrls.
Record t : Type := mk { local : list string; network : list string }.
End ResolvedServerUrls.

(** [string | boolean | undefined] *)
Inductive HostOption : Type :=
  | HostUndefined
  | HostString (s : string)
  | HostBoolean (b : bool).

Section WithHost.
Context `{Host}.

Definition localLine (url : string) : string :=
  Colors.bold colors (Colors.green colors "➜") +:+ " "
  +:+ Colors.bold colors "Local" +:+ ":   "
  +:+ Colors.bold colors (colorUrl url).

Definition networkLine (url : string) : string :=
  Colors.bold colors (Colors.green colors "➜") +:+ " "
  +:+ Colors.bold colors "Network" +:+ ": "
  +:+ Colors.bold colors (colorUrl url).

Definition hostHintLine : string :=
  Colors.dim colors
    ("  " +:+ Colors.green colors "➜" +:+ "  "
     +:+ Colors.bold colors "Network" +:+ ": use ")
  +:+ Colors.bold colors "--host"
  +:+ Colors.dim colors " to expose".

Definition printServerUrls (urls : ResolvedServerUrls.t)
    (optionsHost : HostOption) (logger : ILogger.t) : M unit :=
  forEach (ResolvedServerUrls.local urls)
    (fun url => ILogger.info logger (localLine url)) ;;
  forEach (ResolvedServerUrls.network urls)
    (fun url => ILogger.info logger (networkLine url)) ;;
  if bool_decide (length (ResolvedServerUrls.network urls) = 0)
     && match optionsHost with HostUndefined => true | _ => false end
  then ILogger.info logger hostHintLine
  else mret tt.

End WithHost.

(** ** Vocabulary of the statements *)

(** The world with [evs] appended to its output. *)
Definition add_events (evs : list Event) (w : World) : World :=
  {| heap := heap w; events := events w ++ evs;
     warnOnceMessages := warnOnceMessages w;
     infoOnceMessages := infoOnceMessages w;
     errorOnceMessages := errorOnceMessages w |}.

(** The three module-level sets of a world. *)
Definition once_sets (w : World) : gset value * gset value * gset value :=
  (warnOnceMessages w, infoOnceMessages w, errorOnceMessages w).

(** A computation that leaves the three sets as they are, however it ends. *)
Definition keeps_sets {A} (c : M A) : Prop :=
  forall w, once_sets (snd (c w)) = once_sets w.

(** What [this.canClearScreen && this.clear()] puts out. *)
Definition clearEvents (this : Logger.t) : list Event :=
  if Logger.canClearScreen this then
    match Logger.clear this with
    | Logger.clearScreen => [EvClear]
    | Logger.clearNothing => []
    end
  else [].

(** The console call [logMessage] makes for [level], given the text [body]
    that follows the banner. *)
Definition consoleLine (this : Logger.t) (level : LogLevel) (body : string)
    : Event :=
  EvConsole (default console_log (LOGGER_METHOD level))
    (PerLevel.get (Logger.colorMap this) level (Logger.prefixText this)
     +:+ body).

(** All that one passing [logMessage] call puts out. *)
Definition lineEvents (this : Logger.t) (level : LogLevel) (body : string)
    : list Event :=
  (clearEvents this ++ [consoleLine this level body])%list.

(** The error value [Logger.error] reports for [message], before a cause is
    chained to it: a new object for a string, the object itself otherwise. *)
Definition reported (w : World) (message : value) : option JsError.t :=
  match message with
  | VStr s => Some (JsError.create s (Some ""))
  | VErr l => heap w !! l
  end.

(** The location of that error value. *)
Definition reported_loc (w : World) (message : value) : loc :=
  match message with
  | VStr _ => length (heap w)
  | VErr l => l
  end.

(** [co] is what the cause named by [errorOptions] refers to, if any. *)
Definition cause_is (w : World) (errorOptions : option ErrorOptions.t)
    (co : option JsError.t) : Prop :=
  match Logger.causeOf errorOptions, co with
  | None, None => True
  | Some c, Some o => heap w !! c = Some o
  | _, _ => False
  end.

(** [target] after [error.message += `\nCaused by: ...`]. *)
Definition chained (target : JsError.t) (co : option JsError.t)
    : JsError.t :=
  match co with
  | Some c =>
      JsError.set_message
        (JsError.message target +:+ LF +:+ "Caused by: "
         +:+ Logger.causeText c)
        target
  | None => target
  end.

(** [Logger.error] assigns to [message] only when it chains a cause to an
    error object it was given; this says that the assignment, if there is
    one, is not refused. *)
Definition chain_allowed (message : value) (target : JsError.t)
    (co : option JsError.t) : bool :=
  match co, message with
  | Some _, VErr _ => JsError.message_assignable target
  | _, _ => true
  end.

(** [NoopLogger.error] assigns to [cause] only when a cause is supplied;
    this says that the assignment, if there is one, is not refused. *)
Definition cause_allowed (message : value) (target : JsError.t)
    (c : option loc) : bool :=
  match c, message with
  | Some _, VErr _ => JsError.cause_assignable target
  | _, _ => true
  end.

(** The heap once the reported error [o] is in place. *)
Definition error_heap (w : World) (message : value) (o : JsError.t)
    : list JsError.t :=
  match message with
  | VStr _ => (heap w ++ [o])%list
  | VErr l => <[l := o]> (heap w)
  end.

Section WithHost.
Context `{Host}.

(** The per-message colour each level method passes to [logMessage]. *)
Definition methodColor (level : LogLevel) : option ColorFunction :=
  match level with
  | Trace => Some (Colors.magenta colors)
  | Debug => Some (Colors.blue colors)
  | Info => None
  | Warn => Some (Colors.yellow colors)
  | Error => Some (Colors.red colors)
  end.

(** The text that follows the banner when a level method logs the string
    [message]; [error] logs the string form of the wrapping object. *)
Definition methodBody (level : LogLevel) (message : string) : string :=
  let text :=
    match level with
    | Error => JsError.toString (JsError.create message (Some ""))
    | _ => message
    end in
  match methodColor level with
  | Some c => c text
  | None => text
  end.

(** The level method of a [Logger] for [level], called on a string. *)
Definition levelMethod (this : Logger.t) (level : LogLevel)
    (message : string) : M unit :=
  match level with
  | Trace => Logger.trace this message
  | Debug => Logger.debug this message
  | Info => Logger.info this message
  | Warn => Logger.warn this message
  | Error => Logger.error this (VStr message) None
  end.

(** The computation [c], run in [w], puts out what one passing call of the
    level method for [level] on the string [message] puts out, and
    nothing else. *)
Definition logs_line (this : Logger.t) (level : LogLevel) (message : string)
    (c : M unit) (w : World) : Prop :=
  events (snd (c w))
  = events w ++ lineEvents this level (methodBody level message).

(** How [Logger.error] ends. *)
Definition exitCompletion (this : Logger.t)
    (errorOptions : option ErrorOptions.t) : Completion unit :=
  if truthy_bool (Logger.effectiveExit this errorOptions) then Exits 1
  else Returns tt.

(** The output of [logMessage] at level [Error] for the object [o]. *)
Definition errorEvents (this : Logger.t) (o : JsError.t) : list Event :=
  if Logger.levelFilter this Error then
    lineEvents this Error (Colors.red colors (JsError.toString o))
  else [].

(** The object [NoopLogger.error] throws: [target] when the message is an
    object, a new object with the engine's stack when it is a string, in
    both cases with the cause [c] attached when there is one. *)
Definition thrownObject (message : value) (target : JsError.t)
    (c : option loc) : JsError.t :=
  let e :=
    match message with
    | VStr s => JsError.create s (Some (captureStack s))
    | VErr _ => target
    end in
  match c with
  | Some c => JsError.set_cause (Some c) e
  | None => e
  end.

(** *** Calls made during the life of the process *)

Inductive Receiver : Type :=
  | OnLogger (this : Logger.t)
  | OnNoopLogger.

Inductive Call : Type :=
  | CallTrace (message : string)
  | CallDebug (message : string)
  | CallInfo (message : string)
  | CallWarn (message : string)
  | CallError (message : value) (errorOptions : option ErrorOptions.t)
  | CallInfoOnce (message : string)
  | CallWarnOnce (message : string)
  | CallErrorOnce (message : value)
  | CallHasErrorLogged (message : value)
  | CallHasWarnLogged (message : string)
  | CallPrintServerUrls (urls : ResolvedServerUrls.t) (host : HostOption)
  (* code outside the module: it can replace the heap and write to the
     console, and cannot reach the three sets, which are not exported *)
  | Outside (heap : list JsError.t) (written : list Event).

Definition as_ILogger (r : Receiver) : ILogger.t :=
  match r with
  | OnLogger this => Logger.as_ILogger this
  | OnNoopLogger => NoopLogger.as_ILogger
  end.

Definition run (r : Receiver) (c : Call) : M unit :=
  match c with
  | CallTrace m => ILogger.trace (as_ILogger r) m
  | CallDebug m => ILogger.debug (as_ILogger r) m
  | CallInfo m => ILogger.info (as_ILogger r) m
  | CallWarn m => ILogger.warn (as_ILogger r) m
  | CallError m eo => ILogger.error (as_ILogger r) m eo
  | CallInfoOnce m =>
      match r with
      | OnLogger this => Logger.infoOnce this m
      | OnNoopLogger => NoopLogger.infoOnce m
      end
  | CallWarnOnce m => ILogger.warnOnce (as_ILogger r) m
  | CallErrorOnce m => ILogger.errorOnce (as_ILogger r) m
  | CallHasErrorLogged m =>
      match r with
      | OnLogger this => Logger.hasErrorLogged this m ;; mret tt
      | OnNoopLogger => NoopLogger.hasErrorLogged m ;; mret tt
      end
  | CallHasWarnLogged m =>
      match r with
      | OnLogger this => Logger.hasWarnLogged this m ;; mret tt
      | OnNoopLogger => NoopLogger.hasWarnLogged m ;; mret tt
      end
  | CallPrintServerUrls urls host => printServerUrls urls host (as_ILogger r)
  | Outside h written =>
      fun w => (Returns tt, add_events written (set_heap h w))
  end.

(** The world after a sequence of calls; a caller may catch what a call
    throws and go on, and nothing runs after [process.exit]. *)
Fixpoint run_calls (cs : list (Receiver * Call)) (w : World) : World :=
  match cs with
  | [] => w
  | (r, c) :: rest =>
      match run r c w with
      | (Exits _, w') => w'
      | (_, w') => run_calls rest w'
      end
  end.

(** The messages [printServerUrls] passes to [logger.info], in order: a
    line per local URL, a line per network URL, and the hint when there is
    no network URL and the host option is undefined. *)
Definition serverUrlLines (urls : ResolvedServerUrls.t)
    (optionsHost : HostOption) : list string :=
  map localLine (ResolvedServerUrls.local urls)
  ++ map networkLine (ResolvedServerUrls.network urls)
  ++ match ResolvedServerUrls.network urls, optionsHost with
     | [], HostUndefined => [hostHintLine]
     | _, _ => []
     end.

(** The sets of a world after the call [c] on the receiver [r]: only the
    three [-Once] methods of a [Logger] add to them, each to its own. *)
Definition sets_after (r : Receiver) (c : Call) (w : World)
    : gset value * gset value * gset value :=
  match r, c with
  | OnLogger _, CallWarnOnce m =>
      ({[ VStr m ]} ∪ warnOnceMessages w,
       infoOnceMessages w, errorOnceMessages w)
  | OnLogger _, CallInfoOnce m =>
      (warnOnceMessages w,
       {[ VStr m ]} ∪ infoOnceMessages w, errorOnceMessages w)
  | OnLogger _, CallErrorOnce v =>
      (warnOnceMessages w, infoOnceMessages w,
       {[ v ]} ∪ errorOnceMessages w)
  | _, _ => once_sets w
  end.

(** The call is [warnOnce(m)] on a [Logger]. *)
Definition is_warnOnce (m : string) (rc : Receiver * Call) : Prop :=
  match rc with
  | (OnLogger _, CallWarnOnce m') => m' = m
  | _ => False
  end.

(** The call is [infoOnce(m)] on a [Logger]. *)
Definition is_infoOnce (m : string) (rc : Receiver * Call) : Prop :=
  match rc with
  | (OnLogger _, CallInfoOnce m') => m' = m
  | _ => False
  end.

(** The call is [errorOnce(v)] on a [Logger]. *)
Definition is_errorOnce (v : value) (rc : Receiver * Call) : Prop :=
  match rc with
  | (OnLogger _, CallErrorOnce v') => v' = v
  | _ => False
  end.

End WithHost.

(** [s] holds a line feed. *)
Fixpoint has_LF (s : string) : bool :=
  match s with
  | EmptyString => false
  | String c rest => Ascii.eqb c "010" || has_LF rest
  end.

(** What a field adds to the report: one entry, rendered by [render], when
    the field is truthy, and nothing when it is missing or empty. *)
Definition block (render : string -> string) (field : option string)
    : list string :=
  match field with
  | Some (String c rest) => [render (String c rest)]
  | _ => []
  end.

(** *** Two hosts to evaluate with *)

(** Colours switched off, [pad] indenting the first line by two spaces. *)
Definition plainHost : Host :=
  {| colors :=
       {| Colors.green := id; Colors.debugColor := id;
          Colors.brandColor := id; Colors.yellow := id; Colors.red := id;
          Colors.magenta := id; Colors.blue := id; Colors.cyan := id;
          Colors.bold := id; Colors.dim := id |};
     pad := fun s => "  " +:+ s;
     captureStack :=
       fun m => "Error: " +:+ m +:+ LF +:+ "    at <anonymous>" |}.

(** Colours written as visible marks. *)
Definition mark (m : string) : ColorFunction :=
  fun s => "<" +:+ m +:+ ">" +:+ s +:+ "</" +:+ m +:+ ">".

Definition markHost : Host :=
  {| colors :=
       {| Colors.green := mark "green"; Colors.debugColor := mark "debug";
          Colors.brandColor := mark "brand"; Colors.yellow := mark "yellow";
          Colors.red := mark "red"; Colors.magenta := mark "magenta";
          Colors.blue := mark "blue"; Colors.cyan := mark "cyan";
          Colors.bold := mark "b"; Colors.dim := mark "dim" |};
     pad := fun s => "  " +:+ s;
     captureStack :=
       fun m => "Error: " +:+ m +:+ LF +:+ "    at <anonymous>" |}.

(** An interactive terminal outside CI, and a CI run. *)
Definition terminal : Process := {| isTTY := true; CI := None |}.
Definition ciRun : Process := {| isTTY := false; CI := Some "true" |}.

(** A rank table whose entries are all NaN. *)
Definition nanLevelValues : PerLevel.t number :=
  {| PerLevel.trace := S754_nan; PerLevel.debug := S754_nan;
     PerLevel.info := S754_nan; PerLevel.warn := S754_nan;
     PerLevel.error := S754_nan |}.

(** A logger built with that table, on a terminal, colours switched off. *)
Definition nanLogger : Logger.t :=
  Logger.new (H := plainHost) None (Some nanLevelValues) terminal.

(** The default logger on a terminal, colours as marks. *)
Definition markLogger : Logger.t := logger (H := markHost) terminal.

(** A world that holds one error raised elsewhere, at location 0. *)
Definition enoent : JsError.t :=
  {| JsError.name := "Error"; JsError.message := "ENOENT";
     JsError.stack :=
       Some ("Error: ENOENT" +:+ LF +:+ "    at open (fs.js:1:1)");
     JsError.cause := None;
     JsError.message_assignable := true;
     JsError.cause_assignable := true |}.

Definition enoentWorld : World := set_heap [enoent] initial_World.

(** [{ exit: true, error: <the object at 0> }] *)
Definition fatalOptions : ErrorOptions.t :=
  {| ErrorOptions.exit := Own (Some true); ErrorOptions.e := None;
     ErrorOptions.error := Some 0 |}.

(** Calls made before and after a first [warnOnce("deprecated")]. *)
Definition callsBefore : list (Receiver * Call) :=
  [(OnLogger markLogger, CallInfo "start");
   (OnLogger markLogger, CallWarnOnce "slow plugin");
   (OnNoopLogger, CallWarnOnce "deprecated");
   (OnNoopLogger, Outside [enoent] [EvConsole console_log "compiling"])].

Definition callsLater : list (Receiver * Call) :=
  [(OnLogger markLogger, CallErrorOnce (VStr "deprecated"));
   (OnLogger markLogger, CallError (VErr 0) None)].

(** ** Vocabulary of the further properties *)

(** Whatever the world, [c] keeps what was written and adds only events
    that satisfy [ok]. *)
Definition writes {A} (ok : Event -> Prop) (c : M A) : Prop :=
  forall w, exists evs,
    events (snd (c w)) = events w ++ evs /\ Forall ok evs.

(** [c] leaves the heap as it is, however it ends. *)
Definition keeps_heap {A} (c : M A) : Prop :=
  forall w, heap (snd (c w)) = heap w.

(** [c] returns, whatever the world. *)
Definition always_returns {A} (c : M A) : Prop :=
  forall w, exists a, fst (c w) = Returns a.

(** [c] does not throw, and if it ends the process the status is 1. *)
Definition never_throws {A} (c : M A) : Prop :=
  forall w,
    match fst (c w) with
    | Throws _ => False
    | Exits code => code = 1%Z
    | _ => True
    end.

(** The call is [error] or [errorOnce]. *)
Definition is_error_call (c : Call) : Prop :=
  match c with
  | CallError _ _ | CallErrorOnce _ => True
  | _ => False
  end.

(** The call is one of the module's own, not code outside it. *)
Definition from_module (c : Call) : Prop :=
  match c with
  | Outside _ _ => False
  | _ => True
  end.

(** The console method a call writes through. *)
Definition method_of_call (c : Call) : ConsoleMethod :=
  match c with
  | CallWarn _ | CallWarnOnce _ => console_warn
  | CallError _ _ | CallErrorOnce _ => console_error
  | _ => console_log
  end.

(** The level a call logs at. *)
Definition level_of_call (c : Call) : LogLevel :=
  match c with
  | CallTrace _ => Trace
  | CallDebug _ => Debug
  | CallWarn _ | CallWarnOnce _ => Warn
  | CallError _ _ | CallErrorOnce _ => Error
  | _ => Info
  end.

(** The event is a screen clear, or a console call through the method of
    [c] whose text starts with the logger's banner in the colour of the
    level of [c]. *)
Definition clear_or_bannered (this : Logger.t) (c : Call) (ev : Event)
    : Prop :=
  ev = EvClear
  \/ exists body,
       ev = EvConsole (method_of_call c)
              (PerLevel.get (Logger.colorMap this) (level_of_call c)
                 (Logger.prefixText this)
               +:+ body).

(** The event is a console call through [method]. *)
Definition through (method : ConsoleMethod) (ev : Event) : Prop :=
  match ev with
  | EvConsole m _ => m = method
  | EvClear => False
  end.

(** Every character of [s] is a digit. *)
Fixpoint all_digits (s : string) : bool :=
  match s with
  | EmptyString => true
  | String c rest => is_digit c && all_digits rest
  end.

(** [url] holds a colon, one digit or more, and a slash, in a row. *)
Definition has_port (url : string) : Prop :=
  exists pre port post,
    url = pre +:+ ":" +:+ port +:+ "/" +:+ post
    /\ port <> "" /\ all_digits port = true.

(** A logger that may clear the screen, and one built in a CI run with the
    same options. *)
Definition clearingOptions : LoggerOptions.t :=
  {| LoggerOptions.prefix := None; LoggerOptions.allowClearScreen := Some true;
     LoggerOptions.brandColor := None; LoggerOptions.exit := None |}.

Definition clearingLogger : Logger.t :=
  Logger.new (H := markHost) (Some clearingOptions) None terminal.

Definition ciLogger : Logger.t :=
  Logger.new (H := markHost) (Some clearingOptions) None ciRun.

(** A world with the error at location 0 and a build error at location 1,
    and options that name the first as the cause. *)
Definition buildFailed : JsError.t :=
  {| JsError.name := "Error"; JsError.message := "build failed";
     JsError.stack :=
       Some ("Error: build failed" +:+ LF +:+ "    at build (x.js:2:2)");
     JsError.cause := None;
     JsError.message_assignable := true;
     JsError.cause_assignable := true |}.

Definition twoErrorsWorld : World :=
  set_heap [enoent; buildFailed] initial_World.

(** The same build error after [Object.freeze]: it refuses every
    assignment. It sits at location 1, after the error of location 0. *)
Definition frozenBuildFailed : JsError.t :=
  {| JsError.name := "Error"; JsError.message := "build failed";
     JsError.stack :=
       Some ("Error: build failed" +:+ LF +:+ "    at build (x.js:2:2)");
     JsError.cause := None;
     JsError.message_assignable := false;
     JsError.cause_assignable := false |}.

Definition frozenWorld : World :=
  set_heap [enoent; frozenBuildFailed] initial_World.

Definition causeOptions : ErrorOptions.t :=
  {| ErrorOptions.exit := Absent; ErrorOptions.e := Some 0;
     ErrorOptions.error := None |}.

(** [{ exit: true }], as constructor options. *)
Definition exitOptions : LoggerOptions.t :=
  {| LoggerOptions.prefix := None; LoggerOptions.allowClearScreen := None;
     LoggerOptions.brandColor := None; LoggerOptions.exit := Some true |}.

(** * Properties *)

(** ** Numbers *)

(** [x <= x] holds exactly when [x] is not NaN. *)
Lemma number_le_refl (x : number) : number_le x x = negb (is_NaN x).
Proof.
  destruct x as [s | s | | s m e]; simpl; try reflexivity.
  - destruct s; reflexivity.
  - unfold number_le, SFleb, SFcompare.
    rewrite Z.compare_refl, Pos.compare_cont_refl.
    destruct s; reflexivity.
Qed.

Lemma defaultLevelValues_no_NaN (level : LogLevel) :
  is_NaN (PerLevel.get Logger.defaultLevelValues level) = false.
Proof. destruct level; reflexivity. Qed.

(** ** The monad *)

Lemma add_events_nil (w : World) : add_events [] w = w.
Proof. destruct w; unfold add_events; simpl. by rewrite app_nil_r. Qed.

Lemma add_events_app (a b : list Event) (w : World) :
  add_events b (add_events a w) = add_events (a ++ b) w.
Proof. unfold add_events; simpl. by rewrite app_assoc. Qed.

Lemma set_heap_id (w : World) : set_heap (heap w) w = w.
Proof. by destruct w. Qed.

Lemma add_events_set_heap (evs : list Event) (h : list JsError.t)
    (w : World) :
  add_events evs (set_heap h w) = set_heap h (add_events evs w).
Proof. reflexivity. Qed.

Lemma bind_Returns {A B} (m : M A) (f : A -> M B) (w w' : World) (a : A) :
  m w = (Returns a, w') -> (m ≫= f) w = f a w'.
Proof. intros E. unfold mbind, M_bind. by rewrite E. Qed.

Lemma bind_mret {A B} (a : A) (f : A -> M B) (w : World) :
  (mret a ≫= f) w = f a w.
Proof. reflexivity. Qed.

Lemma emit_run (ev : Event) (w : World) :
  emit ev w = (Returns tt, add_events [ev] w).
Proof. reflexivity. Qed.

Lemma call_clear_run (this : Logger.t) (w : World) :
  (if Logger.canClearScreen this then Logger.call_clear (Logger.clear this)
   else mret tt) w
  = (Returns tt, add_events (clearEvents this) w).
Proof.
  unfold clearEvents.
  destruct (Logger.canClearScreen this);
    [destruct (Logger.clear this) |]; simpl;
    rewrite ?add_events_nil; reflexivity.
Qed.

(** ** [logMessage] *)

Section WithHost.
Context `{Host}.

Lemma levelFilter_NaN (this : Logger.t) (level : LogLevel) :
  Logger.levelFilter this level
  = negb (is_NaN (PerLevel.get (Logger.levelValues this) level)).
Proof. apply number_le_refl. Qed.

Lemma new_levelValues options levelValues proc :
  Logger.levelValues (Logger.new options levelValues proc)
  = default Logger.defaultLevelValues levelValues.
Proof. reflexivity. Qed.

Lemma new_exit options levelValues proc :
  LoggerOptions.exit (Logger.options (Logger.new options levelValues proc))
  = LoggerOptions.exit (default LoggerOptions.empty options).
Proof. reflexivity. Qed.

(** A call that passes the filter clears the screen when it may, then
    makes one console call. *)
Lemma logMessage_pass this level message color showBanner w s :
  Logger.levelFilter this level = true ->
  toStr message w = (Returns s, w) ->
  Logger.logMessage this level message color showBanner w
  = (Returns tt,
     add_events
       (clearEvents this
        ++ [EvConsole (default console_log (LOGGER_METHOD level))
              (PerLevel.get (Logger.colorMap this) level
                 (if showBanner then Logger.prefixText this else "")
               +:+ match color with Some c => c s | None => s end)])
       w).
Proof.
  intros Hpass Hstr. unfold Logger.logMessage. rewrite Hpass.
  erewrite bind_Returns by apply call_clear_run.
  assert (Hs : toStr message (add_events (clearEvents this) w)
               = (Returns s, add_events (clearEvents this) w)).
  { destruct message as [s' | l]; simpl in *.
    - unfold mret, M_ret in *. congruence.
    - unfold mbind, M_bind, deref, mret, M_ret in *. simpl.
      destruct (heap w !! l); simpl in *; congruence. }
  destruct color as [c |].
  - erewrite bind_Returns; [| erewrite bind_Returns by exact Hs; reflexivity].
    rewrite emit_run, add_events_app. reflexivity.
  - erewrite bind_Returns by exact Hs.
    rewrite emit_run, add_events_app. reflexivity.
Qed.

(** A call that fails the filter does nothing. *)
Lemma logMessage_blocked this level message color showBanner w :
  Logger.levelFilter this level = false ->
  Logger.logMessage this level message color showBanner w = (Returns tt, w).
Proof. intros Hblock. unfold Logger.logMessage. by rewrite Hblock. Qed.

Lemma logMessage_string this level s color w :
  Logger.levelFilter this level = true ->
  Logger.logMessage this level (VStr s) color true w
  = (Returns tt,
     add_events
       (lineEvents this level
          (match color with Some c => c s | None => s end)) w).
Proof. intros Hpass. by apply logMessage_pass. Qed.

End WithHost.

(** ** [Logger.error] *)

Lemma alloc_run (o : JsError.t) (w : World) :
  alloc o w = (Returns (length (heap w)), set_heap (heap w ++ [o]) w).
Proof. reflexivity. Qed.

Lemma deref_run (l : loc) (o : JsError.t) (w : World) :
  heap w !! l = Some o -> deref l w = (Returns o, w).
Proof. intros E. unfold deref. by rewrite E. Qed.

Lemma assign_run (l : loc) (prop : string) (can : JsError.t -> bool)
    (o o' : JsError.t) (w : World) :
  heap w !! l = Some o ->
  can o = true ->
  assign l prop can o' w = (Returns tt, set_heap (<[l := o']> (heap w)) w).
Proof. intros E Hcan. unfold assign. by rewrite E, Hcan. Qed.

Lemma assign_refused (l : loc) (prop : string) (can : JsError.t -> bool)
    (o o' : JsError.t) (w : World) :
  heap w !! l = Some o ->
  can o = false ->
  assign l prop can o' w = (Throws (TypeError_assigning prop), w).
Proof. intros E Hcan. unfold assign. by rewrite E, Hcan. Qed.

Lemma bind_Throws {A B} (m : M A) (f : A -> M B) (w w' : World)
    (t : Thrown) :
  m w = (Throws t, w') -> (m ≫= f) w = (Throws t, w').
Proof. intros E. unfold mbind, M_bind. by rewrite E. Qed.

Lemma toStr_error (l : loc) (o : JsError.t) (w : World) :
  heap w !! l = Some o ->
  toStr (VErr l) w = (Returns (JsError.toString o), w).
Proof. intros E. simpl. by erewrite bind_Returns by by apply deref_run. Qed.

Lemma insert_last (h : list JsError.t) (o o' : JsError.t) :
  <[length h := o']> (h ++ [o]) = h ++ [o'].
Proof.
  replace (length h) with (length h + 0) by lia.
  by rewrite insert_app_r.
Qed.

Lemma lookup_last (h : list JsError.t) (o : JsError.t) :
  (h ++ [o]) !! length h = Some o.
Proof. by rewrite list_lookup_middle. Qed.

Section WithHost.
Context `{Host}.

Lemma logMessage_error this l o w :
  heap w !! l = Some o ->
  Logger.logMessage this Error (VErr l) (Some (Colors.red colors)) true w
  = (Returns tt, add_events (errorEvents this o) w).
Proof.
  intros E. unfold errorEvents.
  destruct (Logger.levelFilter this Error) eqn:Hf.
  - erewrite logMessage_pass by (try apply toStr_error; eassumption).
    reflexivity.
  - rewrite add_events_nil. by apply logMessage_blocked.
Qed.

(** The whole of [Logger.error], for a message and a cause that refer to
    objects of the heap, when the assignment to [message], if there is
    one, is not refused. *)
Lemma error_run this message errorOptions w target co :
  reported w message = Some target ->
  cause_is w errorOptions co ->
  chain_allowed message target co = true ->
  Logger.error this message errorOptions w
  = (exitCompletion this errorOptions,
     add_events (errorEvents this (chained target co))
       (set_heap (error_heap w message (chained target co)) w)).
Proof.
  intros Hrep Hcause Hallowed.
  unfold Logger.error, exitCompletion, cause_is in *.
  set (ex := truthy_bool (Logger.effectiveExit this errorOptions)).
  assert (Htail : forall l o w0, heap w0 !! l = Some o ->
    (Logger.logMessage this Error (VErr l) (Some (Colors.red colors)) true ;;
     (if ex then process_exit 1 else mret tt)) w0
    = ((if ex then Exits 1 else Returns tt),
       add_events (errorEvents this o) w0)).
  { intros l o w0 E. erewrite bind_Returns by by apply logMessage_error.
    by destruct ex. }
  destruct message as [s | l]; simpl in Hrep.
  - injection Hrep as <-.
    erewrite bind_Returns by apply alloc_run.
    destruct (Logger.causeOf errorOptions) as [c |], co as [o |];
      try contradiction; simpl.
    + erewrite bind_Returns.
      2:{ erewrite bind_Returns by (apply deref_run, lookup_last).
          erewrite bind_Returns.
          2:{ apply deref_run. simpl. by apply lookup_app_l_Some. }
          eapply assign_run; [apply lookup_last | reflexivity]. }
      simpl. rewrite insert_last. apply Htail. apply lookup_last.
    + rewrite bind_mret. apply Htail. apply lookup_last.
  - destruct (Logger.causeOf errorOptions) as [c |], co as [o |];
      try contradiction; simpl.
    + rewrite bind_mret. erewrite bind_Returns.
      2:{ erewrite bind_Returns by by apply deref_run.
          erewrite bind_Returns by by apply deref_run.
          by eapply assign_run. }
      apply Htail. simpl. apply list_lookup_insert_eq.
      by eapply lookup_lt_Some.
    + rewrite !bind_mret. rewrite list_insert_id by done. rewrite set_heap_id.
      by apply Htail.
Qed.

(** [Logger.error] on an error object that refuses the assignment to
    [message], with a cause to chain: the [TypeError] of the assignment
    leaves the call before [logMessage] and [process.exit] are reached. *)
Lemma error_refused this l errorOptions w target co :
  heap w !! l = Some target ->
  cause_is w errorOptions (Some co) ->
  JsError.message_assignable target = false ->
  Logger.error this (VErr l) errorOptions w
  = (Throws (TypeError_assigning "message"), w).
Proof.
  intros Hl Hcause Hrefuse. unfold Logger.error, cause_is in *.
  destruct (Logger.causeOf errorOptions) as [c |]; [| contradiction].
  rewrite bind_mret. apply bind_Throws.
  erewrite bind_Returns by by apply deref_run.
  erewrite bind_Returns by by apply deref_run.
  by eapply assign_refused.
Qed.

(** Both cases at once. *)
Lemma error_any this message errorOptions w target co :
  reported w message = Some target ->
  cause_is w errorOptions co ->
  Logger.error this message errorOptions w
  = if chain_allowed message target co then
      (exitCompletion this errorOptions,
       add_events (errorEvents this (chained target co))
         (set_heap (error_heap w message (chained target co)) w))
    else (Throws (TypeError_assigning "message"), w).
Proof.
  intros Hrep Hcause.
  destruct (chain_allowed message target co) eqn:Hallowed.
  - by apply error_run.
  - destruct co as [o |], message as [s | l]; try discriminate.
    by eapply error_refused.
Qed.

End WithHost.

(** ** The level filter *)

Section WithHost.
Context `{Host}.

(** What a level method does on a string when its level passes the
    filter. *)
Lemma levelMethod_run this level message w :
  Logger.levelFilter this level = true ->
  levelMethod this level message w
  = (match level with
     | Error => exitCompletion this None
     | _ => Returns tt
     end,
     add_events (lineEvents this level (methodBody level message))
       (match level with
        | Error =>
            set_heap (heap w ++ [JsError.create message (Some "")]) w
        | _ => w
        end)).
Proof.
  intros Hpass.
  destruct level; simpl;
    try (unfold Logger.trace, Logger.debug, Logger.info, Logger.warn;
         by rewrite logMessage_string).
  erewrite (error_run this (VStr message) None w _ None) by done.
  unfold errorEvents. by rewrite Hpass.
Qed.

End WithHost.

(** C1, as amended. The test of [logMessage] compares the rank of the
    level with itself, which holds for every rank except NaN. So for
    every [Logger], whatever its options, and every level whose rank in
    the logger's table is not NaN (the default table 0..4 has none), the
    test is true and the level method writes its message: the screen is
    cleared when that is allowed, and one console call is made with the
    banner and the message. For [error] this holds as well when the
    message is an error object and when options are passed, except that
    nothing is written when a cause has to be chained to an error object
    that refuses the assignment to its message: there the call throws
    before it reaches [logMessage]. *)
Theorem C1_filter_passes_unless_NaN `{Host} (this : Logger.t)
    (level : LogLevel) (message : string) (w : World) :
  is_NaN (PerLevel.get (Logger.levelValues this) level) = false ->
  Logger.levelFilter this level = true
  /\ events (snd (levelMethod this level message w))
     = events w ++ lineEvents this level (methodBody level message)
  /\ (level = Error ->
      forall (v : value) (errorOptions : option ErrorOptions.t)
             (target : JsError.t) (co : option JsError.t),
        reported w v = Some target ->
        cause_is w errorOptions co ->
        events (snd (Logger.error this v errorOptions w))
        = events w
          ++ (if chain_allowed v target co
              then lineEvents this Error
                     (Colors.red colors
                        (JsError.toString (chained target co)))
              else []))
  /\ (forall (options : option LoggerOptions.t) (proc : Process)
             (any : LogLevel),
        Logger.levelFilter (Logger.new options None proc) any = true).
Proof.
  intros Hrank.
  assert (Hpass : Logger.levelFilter this level = true)
    by by rewrite levelFilter_NaN, Hrank.
  split; [exact Hpass |]. split; [| split].
  - rewrite levelMethod_run by exact Hpass. by destruct level.
  - intros -> v errorOptions target co Hrep Hcause.
    rewrite (error_any this v errorOptions w target co) by done.
    destruct (chain_allowed v target co); simpl.
    + unfold errorEvents. by rewrite Hpass.
    + by rewrite app_nil_r.
  - intros options proc any.
    by rewrite levelFilter_NaN, new_levelValues, defaultLevelValues_no_NaN.
Qed.

(** The default table on a terminal, at level [warn]. *)
Lemma C1_witness_default_table :
  is_NaN (PerLevel.get (Logger.levelValues markLogger) Warn) = false
  /\ Logger.levelFilter markLogger Warn = true
  /\ events (snd (levelMethod (H := markHost) markLogger Warn
                    "disk almost full" initial_World))
     = [EvConsole console_warn
          "<yellow><b>[ <b>Farm</b> ]</b> </yellow><yellow>disk almost full</yellow>"].
Proof.
  split; [reflexivity |].
  destruct (C1_filter_passes_unless_NaN (H := markHost) markLogger Warn
              "disk almost full" initial_World eq_refl)
    as (Hpass & Hline & _).
  split; [exact Hpass | exact Hline].
Defined.

(** C1, as stated, fails: a [Logger] built with a rank table of NaN
    entries fails the test at every level, and its [warn] writes nothing. *)
Lemma C1_counterexample_NaN_ranks :
  Logger.levelFilter nanLogger Warn = false
  /\ Logger.warn (H := plainHost) nanLogger "disk almost full" initial_World
     = (Returns tt, initial_World)
  /\ ~ (forall (this : Logger.t) (level : LogLevel),
          Logger.levelFilter this level = true).
Proof.
  split; [reflexivity |]. split; [reflexivity |].
  intros Hall. specialize (Hall nanLogger Warn). discriminate Hall.
Qed.

(** ** Fatal errors *)

Section WithHost.
Context `{Host}.

(** [NoopLogger.error] with a truthy [exit], when the assignment to
    [cause], if there is one, is not refused. *)
Lemma noop_error_run message eo w target :
  truthy_bool (read (ErrorOptions.exit eo)) = true ->
  reported w message = Some target ->
  cause_allowed message target (Logger.causeOf (Some eo)) = true ->
  NoopLogger.error message (Some eo) w
  = (Throws (ThrownError (reported_loc w message)),
     set_heap
       (error_heap w message
          (thrownObject message target (Logger.causeOf (Some eo)))) w).
Proof.
  intros Hexit Hrep Hallowed. unfold NoopLogger.error, thrownObject.
  rewrite Hexit.
  destruct message as [s | l]; simpl in Hrep.
  - erewrite bind_Returns by apply alloc_run.
    destruct (Logger.causeOf (Some eo)) as [c |].
    + erewrite bind_Returns.
      2:{ erewrite bind_Returns by (apply deref_run, lookup_last).
          eapply assign_run; [apply lookup_last | reflexivity]. }
      simpl. by rewrite insert_last.
    + by rewrite bind_mret.
  - rewrite bind_mret.
    destruct (Logger.causeOf (Some eo)) as [c |].
    + erewrite bind_Returns.
      2:{ erewrite bind_Returns by by apply deref_run.
          by eapply assign_run. }
      reflexivity.
    + rewrite bind_mret. unfold error_heap.
      rewrite list_insert_id by done. by rewrite set_heap_id.
Qed.

(** [NoopLogger.error] with a truthy [exit] and a cause, on an error
    object that refuses the assignment to [cause]. *)
Lemma noop_error_refused l eo c w target :
  truthy_bool (read (ErrorOptions.exit eo)) = true ->
  heap w !! l = Some target ->
  Logger.causeOf (Some eo) = Some c ->
  JsError.cause_assignable target = false ->
  NoopLogger.error (VErr l) (Some eo) w
  = (Throws (TypeError_assigning "cause"), w).
Proof.
  intros Hexit Hl Hc Hrefuse. unfold NoopLogger.error.
  rewrite Hexit, Hc, bind_mret. apply bind_Throws.
  erewrite bind_Returns by by apply deref_run.
  by eapply assign_refused.
Qed.

End WithHost.

(** C2, as amended. With [exit: true] in the per-call options,
    [Logger.error] ends the process with status 1 and does not return,
    unless it has to chain a cause to an error object that refuses the
    assignment to its message. It ends the process after the error has
    gone through [logMessage], which writes the line when the rank of
    [error] passes the filter, that is when it is not NaN.
    [NoopLogger.error] neither writes nor exits: it throws the error
    value, whose [cause] is the supplied cause, given as [e] or, in the
    absence of [e], as [error], unless the error object it was given
    refuses the assignment to [cause]. *)
Theorem C2_error_exit_true `{Host} (this : Logger.t) (message : value)
    (eo : ErrorOptions.t) (w : World) (target : JsError.t)
    (co : option JsError.t) :
  ErrorOptions.exit eo = Own (Some true) ->
  reported w message = Some target ->
  cause_is w (Some eo) co ->
  (chain_allowed message target co = true ->
   exists w',
     Logger.error this message (Some eo) w = (Exits 1, w')
     /\ heap w' !! reported_loc w message = Some (chained target co)
     /\ events w' = events w ++ errorEvents this (chained target co)
     /\ (is_NaN (PerLevel.get (Logger.levelValues this) Error) = false ->
         events w'
         = events w
           ++ lineEvents this Error
                (Colors.red colors (JsError.toString (chained target co)))))
  /\ (cause_allowed message target (Logger.causeOf (Some eo)) = true ->
      exists w' thrown,
        NoopLogger.error message (Some eo) w
        = (Throws (ThrownError (reported_loc w message)), w')
        /\ events w' = events w
        /\ heap w' !! reported_loc w message = Some thrown
        /\ (forall c, ErrorOptions.e eo = Some c ->
                      JsError.cause thrown = Some c)
        /\ (forall c, ErrorOptions.e eo = None ->
                      ErrorOptions.error eo = Some c ->
                      JsError.cause thrown = Some c)).
Proof.
  intros Hexit Hrep Hcause.
  assert (Hloc : forall o,
    error_heap w message o !! reported_loc w message = Some o).
  { intros o. destruct message as [s | l]; simpl.
    - apply lookup_last.
    - apply list_lookup_insert_eq. by eapply lookup_lt_Some. }
  split.
  - intros Hallowed. eexists. split.
    + rewrite (error_run this message (Some eo) w target co) by done.
      unfold exitCompletion, Logger.effectiveExit. by rewrite Hexit.
    + split; [apply Hloc |]. split; [reflexivity |].
      intros Hrank. simpl. unfold errorEvents.
      by rewrite levelFilter_NaN, Hrank.
  - intros Hallowed. eexists. eexists. split.
    + apply noop_error_run; [by rewrite Hexit | exact Hrep | exact Hallowed].
    + split; [reflexivity |]. split; [apply Hloc |].
      unfold thrownObject. simpl.
      split; [intros c -> | intros c -> ->]; reflexivity.
Qed.

(** A fatal error with a chained cause, on both loggers. *)
Lemma C2_witness_fatal_with_cause :
  ErrorOptions.exit fatalOptions = Own (Some true)
  /\ reported enoentWorld (VStr "build failed")
     = Some (JsError.create "build failed" (Some ""))
  /\ cause_is enoentWorld (Some fatalOptions) (Some enoent)
  /\ chain_allowed (VStr "build failed")
       (JsError.create "build failed" (Some "")) (Some enoent) = true
  /\ cause_allowed (VStr "build failed")
       (JsError.create "build failed" (Some ""))
       (Logger.causeOf (Some fatalOptions)) = true
  /\ is_NaN (PerLevel.get (Logger.levelValues markLogger) Error) = false
  /\ fst (Logger.error (H := markHost) markLogger (VStr "build failed")
            (Some fatalOptions) enoentWorld) = Exits 1
  /\ events (snd (Logger.error (H := markHost) markLogger
                    (VStr "build failed") (Some fatalOptions) enoentWorld))
     = [consoleLine markLogger Error
          (mark "red"
             ("Error: build failed" +:+ LF +:+ "Caused by: Error: ENOENT"
              +:+ LF +:+ "    at open (fs.js:1:1)"))]
  /\ fst (NoopLogger.error (H := markHost) (VStr "build failed")
            (Some fatalOptions) enoentWorld) = Throws (ThrownError 1).
Proof.
  do 6 (split; [reflexivity |]).
  destruct (C2_error_exit_true (H := markHost) markLogger
              (VStr "build failed") fatalOptions enoentWorld
              (JsError.create "build failed" (Some "")) (Some enoent)
              eq_refl eq_refl eq_refl)
    as [Hlogger Hnoop].
  destruct (Hlogger eq_refl) as (w1 & E1 & _ & _ & Hline).
  destruct (Hnoop eq_refl) as (w2 & thrown & E2 & _).
  rewrite E1, E2. split; [reflexivity |].
  split; [exact (Hline eq_refl) | reflexivity].
Defined.

(** C2, as stated, fails in two ways. On a logger whose rank of [error]
    is NaN the call ends the process with status 1 and nothing has been
    written. On an error object that refuses assignments, with a cause
    supplied, [Logger.error] throws the [TypeError] of the assignment to
    [message] and neither writes nor ends the process, and
    [NoopLogger.error] throws the [TypeError] of the assignment to
    [cause], not the error value, whose [cause] stays unset. *)
Lemma C2_counterexample_silent_exit_and_refused_write :
  Logger.error (H := plainHost) nanLogger (VStr "build failed")
    (Some fatalOptions) enoentWorld
  = (Exits 1,
     set_heap
       [enoent;
        JsError.set_message
          ("build failed" +:+ LF +:+ "Caused by: Error: ENOENT" +:+ LF
           +:+ "    at open (fs.js:1:1)")
          (JsError.create "build failed" (Some ""))]
       enoentWorld)
  /\ events (snd (Logger.error (H := plainHost) nanLogger
                    (VStr "build failed") (Some fatalOptions) enoentWorld))
     = []
  /\ Logger.error (H := markHost) markLogger (VErr 1) (Some fatalOptions)
       frozenWorld
     = (Throws (TypeError_assigning "message"), frozenWorld)
  /\ NoopLogger.error (H := markHost) (VErr 1) (Some fatalOptions)
       frozenWorld
     = (Throws (TypeError_assigning "cause"), frozenWorld).
Proof. repeat split; reflexivity. Qed.

(** ** The three sets *)

Lemma keeps_bind {A B} (m : M A) (f : A -> M B) :
  keeps_sets m -> (forall a, keeps_sets (f a)) -> keeps_sets (m ≫= f).
Proof.
  intros Hm Hf w. unfold mbind, M_bind. specialize (Hm w).
  destruct (m w) as [[a | t | c |] w']; simpl in *; try exact Hm.
  by rewrite Hf.
Qed.

Lemma keeps_mret {A} (a : A) : keeps_sets (mret a).
Proof. by intros w. Qed.

Lemma keeps_throw {A} (t : Thrown) : keeps_sets (@throw A t).
Proof. by intros w. Qed.

Lemma keeps_process_exit {A} (code : Z) : keeps_sets (@process_exit A code).
Proof. by intros w. Qed.

Lemma keeps_emit (ev : Event) : keeps_sets (emit ev).
Proof. by intros w. Qed.

Lemma keeps_alloc (o : JsError.t) : keeps_sets (alloc o).
Proof. by intros w. Qed.

Lemma keeps_deref (l : loc) : keeps_sets (deref l).
Proof. intros w. unfold deref. by destruct (heap w !! l). Qed.

Lemma keeps_assign (l : loc) (prop : string) (can : JsError.t -> bool)
    (o : JsError.t) :
  keeps_sets (assign l prop can o).
Proof.
  intros w. unfold assign.
  destruct (heap w !! l) as [o0 |]; [| done]. by destruct (can o0).
Qed.

Lemma keeps_has (set : World -> gset value) (v : value) :
  keeps_sets (Logger.has set v).
Proof. by intros w. Qed.

Lemma keeps_toStr (message : value) : keeps_sets (toStr message).
Proof.
  destruct message; simpl; [apply keeps_mret |].
  apply keeps_bind; [apply keeps_deref | intros; apply keeps_mret].
Qed.

Lemma keeps_forEach {A} (xs : list A) (body : A -> M unit) :
  (forall x, keeps_sets (body x)) -> keeps_sets (forEach xs body).
Proof.
  intros Hbody. induction xs as [| x xs IH]; simpl; [apply keeps_mret |].
  apply keeps_bind; [apply Hbody | intros; apply IH].
Qed.

Create HintDb keeps.

#[local] Hint Resolve keeps_mret keeps_throw keeps_process_exit keeps_emit
  keeps_alloc keeps_deref keeps_assign keeps_has keeps_toStr : keeps.

(** Splits a computation along its binds and branches, down to the
    primitive steps. *)
Ltac keeps_step :=
  repeat first
    [ apply keeps_bind; [| intros]
    | progress auto with keeps
    | match goal with
      | |- keeps_sets (match ?x with _ => _ end) => destruct x
      | |- keeps_sets (if ?b then _ else _) => destruct b
      end ].

Section WithHost.
Context `{Host}.

Lemma keeps_logMessage this level message color showBanner :
  keeps_sets (Logger.logMessage this level message color showBanner).
Proof. unfold Logger.logMessage, Logger.call_clear. keeps_step. Qed.

Lemma keeps_error this message errorOptions :
  keeps_sets (Logger.error this message errorOptions).
Proof.
  unfold Logger.error. keeps_step; apply keeps_logMessage.
Qed.

Lemma keeps_noop_error message errorOptions :
  keeps_sets (NoopLogger.error message errorOptions).
Proof. unfold NoopLogger.error. keeps_step. Qed.

(** The sets after each of the three [-Once] methods: the method's own set
    gains the message, the other two are as before. *)
Lemma warnOnce_sets this message w :
  once_sets (snd (Logger.warnOnce this message w))
  = ({[ VStr message ]} ∪ warnOnceMessages w,
     infoOnceMessages w, errorOnceMessages w).
Proof.
  unfold Logger.warnOnce, mbind, M_bind, Logger.has. simpl.
  case_bool_decide as Hin; simpl.
  - unfold once_sets. f_equal. f_equal. symmetry.
    by apply subseteq_union_1_L, singleton_subseteq_l.
  - unfold Logger.warn. by rewrite keeps_logMessage.
Qed.

Lemma infoOnce_sets this message w :
  once_sets (snd (Logger.infoOnce this message w))
  = (warnOnceMessages w,
     {[ VStr message ]} ∪ infoOnceMessages w, errorOnceMessages w).
Proof.
  unfold Logger.infoOnce, mbind, M_bind, Logger.has. simpl.
  case_bool_decide as Hin; simpl.
  - unfold once_sets. f_equal. f_equal. symmetry.
    by apply subseteq_union_1_L, singleton_subseteq_l.
  - unfold Logger.info. by rewrite keeps_logMessage.
Qed.

Lemma errorOnce_sets this message w :
  once_sets (snd (Logger.errorOnce this message w))
  = (warnOnceMessages w, infoOnceMessages w,
     {[ message ]} ∪ errorOnceMessages w).
Proof.
  unfold Logger.errorOnce, mbind, M_bind, Logger.has. simpl.
  case_bool_decide as Hin; simpl.
  - unfold once_sets. f_equal. symmetry.
    by apply subseteq_union_1_L, singleton_subseteq_l.
  - by rewrite keeps_error.
Qed.

(** A first call records the message and runs the plain method; a call
    on a recorded message does nothing. *)
Lemma warnOnce_fresh this message w :
  VStr message ∉ warnOnceMessages w ->
  Logger.warnOnce this message w
  = Logger.warn this message (snd (Logger.record_warn (VStr message) w)).
Proof.
  intros Hnew. unfold Logger.warnOnce, mbind, M_bind, Logger.has. simpl.
  by rewrite bool_decide_eq_false_2.
Qed.

Lemma warnOnce_seen this message w :
  VStr message ∈ warnOnceMessages w ->
  Logger.warnOnce this message w = (Returns tt, w).
Proof.
  intros Hin. unfold Logger.warnOnce, mbind, M_bind, Logger.has. simpl.
  by rewrite bool_decide_eq_true_2.
Qed.

Lemma infoOnce_fresh this message w :
  VStr message ∉ infoOnceMessages w ->
  Logger.infoOnce this message w
  = Logger.info this message (snd (Logger.record_info (VStr message) w)).
Proof.
  intros Hnew. unfold Logger.infoOnce, mbind, M_bind, Logger.has. simpl.
  by rewrite bool_decide_eq_false_2.
Qed.

Lemma infoOnce_seen this message w :
  VStr message ∈ infoOnceMessages w ->
  Logger.infoOnce this message w = (Returns tt, w).
Proof.
  intros Hin. unfold Logger.infoOnce, mbind, M_bind, Logger.has. simpl.
  by rewrite bool_decide_eq_true_2.
Qed.

Lemma errorOnce_fresh this message w :
  message ∉ errorOnceMessages w ->
  Logger.errorOnce this message w
  = Logger.error this message None (snd (Logger.record_error message w)).
Proof.
  intros Hnew. unfold Logger.errorOnce, mbind, M_bind, Logger.has. simpl.
  by rewrite bool_decide_eq_false_2.
Qed.

Lemma errorOnce_seen this message w :
  message ∈ errorOnceMessages w ->
  Logger.errorOnce this message w = (Returns tt, w).
Proof.
  intros Hin. unfold Logger.errorOnce, mbind, M_bind, Logger.has. simpl.
  by rewrite bool_decide_eq_true_2.
Qed.

End WithHost.

(** ** The sets over the life of the process *)

Section WithHost.
Context `{Host}.

Lemma keeps_printServerUrls urls host (lg : ILogger.t) :
  (forall s, keeps_sets (ILogger.info lg s)) ->
  keeps_sets (printServerUrls urls host lg).
Proof.
  intros Hinfo. unfold printServerUrls.
  repeat (apply keeps_bind; [| intros]);
    try (apply keeps_forEach; intros; apply Hinfo).
  destruct (_ && _); [apply Hinfo | apply keeps_mret].
Qed.

Lemma run_sets r c w : once_sets (snd (run r c w)) = sets_after r c w.
Proof.
  destruct r as [this |], c; simpl;
    try apply warnOnce_sets; try apply infoOnce_sets;
    try apply errorOnce_sets;
    try apply keeps_logMessage; try apply keeps_error;
    try apply keeps_noop_error; try reflexivity.
  - apply keeps_printServerUrls. intros s. apply keeps_logMessage.
  - apply keeps_printServerUrls. intros s. apply keeps_mret.
Qed.

Lemma run_warn_set r c w :
  warnOnceMessages (snd (run r c w)) = (sets_after r c w).1.1.
Proof. by rewrite <- run_sets. Qed.

Lemma run_info_set r c w :
  infoOnceMessages (snd (run r c w)) = (sets_after r c w).1.2.
Proof. by rewrite <- run_sets. Qed.

Lemma run_error_set r c w :
  errorOnceMessages (snd (run r c w)) = (sets_after r c w).2.
Proof. by rewrite <- run_sets. Qed.

(** No call takes a message out of a set. *)
Lemma run_grows r c w :
  warnOnceMessages w ⊆ warnOnceMessages (snd (run r c w))
  /\ infoOnceMessages w ⊆ infoOnceMessages (snd (run r c w))
  /\ errorOnceMessages w ⊆ errorOnceMessages (snd (run r c w)).
Proof.
  rewrite run_warn_set, run_info_set, run_error_set.
  destruct r, c; simpl; repeat split;
    first [reflexivity | apply union_subseteq_r].
Qed.

Lemma run_calls_cons r c rest w :
  run_calls ((r, c) :: rest) w = snd (run r c w)
  \/ run_calls ((r, c) :: rest) w = run_calls rest (snd (run r c w)).
Proof. simpl. destruct (run r c w) as [[| | |] w']; auto. Qed.

Lemma run_calls_grows cs w :
  warnOnceMessages w ⊆ warnOnceMessages (run_calls cs w)
  /\ infoOnceMessages w ⊆ infoOnceMessages (run_calls cs w)
  /\ errorOnceMessages w ⊆ errorOnceMessages (run_calls cs w).
Proof.
  revert w. induction cs as [| [r c] rest IH]; intros w; [done |].
  destruct (run_grows r c w) as (Hw & Hi & He).
  destruct (run_calls_cons r c rest w) as [-> | ->]; [done |].
  destruct (IH (snd (run r c w))) as (Hw' & Hi' & He').
  repeat split; etrans; eauto.
Qed.

(** A message enters the warn set only through [warnOnce] of that message
    on a [Logger], and likewise for the other two sets. *)
Lemma run_calls_warn_new m cs w :
  Forall (fun rc => ~ is_warnOnce m rc) cs ->
  VStr m ∉ warnOnceMessages w ->
  VStr m ∉ warnOnceMessages (run_calls cs w).
Proof.
  intros Hcs. revert w.
  induction Hcs as [| [r c] rest Hrc _ IH]; intros w Hnew; [done |].
  assert (Hstep : VStr m ∉ warnOnceMessages (snd (run r c w))).
  { rewrite run_warn_set. destruct r, c; simpl in *; try done.
    intros [Heq%elem_of_singleton | Hin]%elem_of_union; [| done].
    apply Hrc. congruence. }
  destruct (run_calls_cons r c rest w) as [-> | ->]; auto.
Qed.

Lemma run_calls_info_new m cs w :
  Forall (fun rc => ~ is_infoOnce m rc) cs ->
  VStr m ∉ infoOnceMessages w ->
  VStr m ∉ infoOnceMessages (run_calls cs w).
Proof.
  intros Hcs. revert w.
  induction Hcs as [| [r c] rest Hrc _ IH]; intros w Hnew; [done |].
  assert (Hstep : VStr m ∉ infoOnceMessages (snd (run r c w))).
  { rewrite run_info_set. destruct r, c; simpl in *; try done.
    intros [Heq%elem_of_singleton | Hin]%elem_of_union; [| done].
    apply Hrc. congruence. }
  destruct (run_calls_cons r c rest w) as [-> | ->]; auto.
Qed.

Lemma run_calls_error_new v cs w :
  Forall (fun rc => ~ is_errorOnce v rc) cs ->
  v ∉ errorOnceMessages w ->
  v ∉ errorOnceMessages (run_calls cs w).
Proof.
  intros Hcs. revert w.
  induction Hcs as [| [r c] rest Hrc _ IH]; intros w Hnew; [done |].
  assert (Hstep : v ∉ errorOnceMessages (snd (run r c w))).
  { rewrite run_error_set. destruct r, c; simpl in *; try done.
    intros [Heq%elem_of_singleton | Hin]%elem_of_union; [| done].
    apply Hrc. congruence. }
  destruct (run_calls_cons r c rest w) as [-> | ->]; auto.
Qed.

End WithHost.

(** ** Messages logged once *)

Section WithHost.
Context `{Host}.

Lemma warn_events this message w :
  events (snd (Logger.warn this message w))
  = events w
    ++ (if Logger.levelFilter this Warn
        then lineEvents this Warn (Colors.yellow colors message)
        else []).
Proof.
  unfold Logger.warn. destruct (Logger.levelFilter this Warn) eqn:Hf.
  - by rewrite logMessage_string.
  - rewrite logMessage_blocked by done. simpl. by rewrite app_nil_r.
Qed.

Lemma info_events this message w :
  events (snd (Logger.info this message w))
  = events w
    ++ (if Logger.levelFilter this Info
        then lineEvents this Info message
        else []).
Proof.
  unfold Logger.info. destruct (Logger.levelFilter this Info) eqn:Hf.
  - by rewrite logMessage_string.
  - rewrite logMessage_blocked by done. simpl. by rewrite app_nil_r.
Qed.

End WithHost.

(** C3, as amended. Take a [Logger] whose rank of [warn] is not NaN, and
    the process from module load, when the warn set is empty, through any
    calls that do not include [warnOnce(m)] on a [Logger]:
    [hasWarnLogged(m)] is false. The first [warnOnce(m)] then records [m]
    and writes the warn line; [hasWarnLogged(m)] is true from then on. The
    second call changes nothing, so the two calls write the line exactly
    once, and after any further calls [warnOnce(m)], on any [Logger],
    still changes nothing. *)
Theorem C3_warnOnce_logs_once `{Host} (this : Logger.t) (m : string)
    (w0 : World) (before later : list (Receiver * Call)) :
  is_NaN (PerLevel.get (Logger.levelValues this) Warn) = false ->
  warnOnceMessages w0 = ∅ ->
  Forall (fun rc => ~ is_warnOnce m rc) before ->
  let w := run_calls before w0 in
  let w1 := snd (Logger.warnOnce this m w) in
  let w2 := run_calls later w1 in
  Logger.hasWarnLogged this m w = (Returns false, w)
  /\ Logger.hasWarnLogged this m w1 = (Returns true, w1)
  /\ Logger.warnOnce this m w
     = Logger.warn this m (snd (Logger.record_warn (VStr m) w))
  /\ events w1 = events w ++ lineEvents this Warn (Colors.yellow colors m)
  /\ Logger.warnOnce this m w1 = (Returns tt, w1)
  /\ events (snd (Logger.warnOnce this m w1))
     = events w ++ lineEvents this Warn (Colors.yellow colors m)
  /\ (forall this' : Logger.t,
        Logger.warnOnce this' m w2 = (Returns tt, w2)
        /\ Logger.hasWarnLogged this' m w2 = (Returns true, w2)).
Proof.
  intros Hrank Hempty Hbefore w w1 w2.
  assert (Hpass : Logger.levelFilter this Warn = true)
    by by rewrite levelFilter_NaN, Hrank.
  assert (Hnew : VStr m ∉ warnOnceMessages w).
  { apply run_calls_warn_new; [done |]. rewrite Hempty.
    apply not_elem_of_empty. }
  assert (Hin1 : VStr m ∈ warnOnceMessages w1).
  { pose proof (warnOnce_sets this m w) as Hs. unfold once_sets in Hs.
    injection Hs as Hs _ _. subst w1. rewrite Hs.
    by apply elem_of_union_l, elem_of_singleton. }
  assert (Hin2 : VStr m ∈ warnOnceMessages w2).
  { by apply (run_calls_grows later w1). }
  assert (Hline : events w1
                  = events w ++ lineEvents this Warn (Colors.yellow colors m)).
  { subst w1. rewrite warnOnce_fresh by done.
    rewrite warn_events, Hpass. reflexivity. }
  assert (Hsecond : Logger.warnOnce this m w1 = (Returns tt, w1))
    by by apply warnOnce_seen.
  repeat split.
  - unfold Logger.hasWarnLogged, Logger.has. by rewrite bool_decide_eq_false_2.
  - unfold Logger.hasWarnLogged, Logger.has. by rewrite bool_decide_eq_true_2.
  - by apply warnOnce_fresh.
  - exact Hline.
  - exact Hsecond.
  - by rewrite Hsecond.
  - by apply warnOnce_seen.
  - unfold Logger.hasWarnLogged, Logger.has. by rewrite bool_decide_eq_true_2.
Qed.

(** A deprecation warning on the default logger, with calls before and
    after the first [warnOnce]. *)
Lemma C3_witness_deprecation :
  is_NaN (PerLevel.get (Logger.levelValues markLogger) Warn) = false
  /\ warnOnceMessages initial_World = ∅
  /\ Forall (fun rc => ~ is_warnOnce "deprecated" rc) callsBefore
  /\ events (snd (Logger.warnOnce (H := markHost) markLogger "deprecated"
                    (run_calls (H := markHost) callsBefore initial_World)))
     = events (run_calls (H := markHost) callsBefore initial_World)
       ++ [consoleLine markLogger Warn (mark "yellow" "deprecated")]
  /\ Logger.warnOnce (H := markHost) markLogger "deprecated"
       (run_calls (H := markHost) callsLater
          (snd (Logger.warnOnce (H := markHost) markLogger "deprecated"
                  (run_calls (H := markHost) callsBefore initial_World))))
     = (Returns tt,
        run_calls (H := markHost) callsLater
          (snd (Logger.warnOnce (H := markHost) markLogger "deprecated"
                  (run_calls (H := markHost) callsBefore initial_World)))).
Proof.
  assert (Hbefore : Forall (fun rc => ~ is_warnOnce "deprecated" rc)
                      callsBefore).
  { repeat constructor; simpl; try tauto. discriminate. }
  split; [reflexivity |]. split; [reflexivity |]. split; [exact Hbefore |].
  destruct (C3_warnOnce_logs_once (H := markHost) markLogger "deprecated"
              initial_World callsBefore callsLater eq_refl eq_refl Hbefore)
    as (_ & _ & _ & Hline & _ & _ & Hlater).
  split; [exact Hline | exact (proj1 (Hlater markLogger))].
Defined.

(** C3, as stated, fails on a logger whose rank of [warn] is NaN: the two
    [warnOnce] calls record the message and write no line at all. *)
Lemma C3_counterexample_NaN_warn_rank :
  events
    (snd (Logger.warnOnce (H := plainHost) nanLogger "deprecated"
            (snd (Logger.warnOnce (H := plainHost) nanLogger "deprecated"
                    initial_World))))
  = []
  /\ fst (Logger.hasWarnLogged nanLogger "deprecated"
            (snd (Logger.warnOnce (H := plainHost) nanLogger "deprecated"
                    initial_World)))
     = Returns true.
Proof. split; reflexivity. Qed.

Section WithHost.
Context `{Host}.

Lemma levelMethod_logs_line this level message w :
  Logger.levelFilter this level = true ->
  logs_line this level message (levelMethod this level message) w.
Proof.
  intros Hpass. unfold logs_line.
  rewrite levelMethod_run by exact Hpass. by destruct level.
Qed.

(** A [-Once] call on a new message puts out what the plain method does. *)
Lemma warnOnce_logs_line this m w :
  VStr m ∉ warnOnceMessages w ->
  Logger.levelFilter this Warn = true ->
  logs_line this Warn m (Logger.warnOnce this m) w.
Proof.
  intros Hnew Hpass. unfold logs_line. rewrite warnOnce_fresh by done.
  exact (levelMethod_logs_line this Warn m _ Hpass).
Qed.

Lemma infoOnce_logs_line this m w :
  VStr m ∉ infoOnceMessages w ->
  Logger.levelFilter this Info = true ->
  logs_line this Info m (Logger.infoOnce this m) w.
Proof.
  intros Hnew Hpass. unfold logs_line. rewrite infoOnce_fresh by done.
  exact (levelMethod_logs_line this Info m _ Hpass).
Qed.

Lemma errorOnce_logs_line this m w :
  VStr m ∉ errorOnceMessages w ->
  Logger.levelFilter this Error = true ->
  logs_line this Error m (Logger.errorOnce this (VStr m)) w.
Proof.
  intros Hnew Hpass. unfold logs_line. rewrite errorOnce_fresh by done.
  exact (levelMethod_logs_line this Error m _ Hpass).
Qed.

End WithHost.

(** C4. [infoOnce] and [errorOnce] behave as [warnOnce] does: the first
    call on a message records it and runs the plain method, the second
    changes nothing, and neither does any later one. Each method reads and
    writes its own set only: a message new to all three sets is still new
    to the other two after any one of the [-Once] methods has logged it,
    so the other two methods log it as well. *)
Theorem C4_once_sets_independent `{Host} (this : Logger.t) (m : string)
    (v : value) (w : World) (later : list (Receiver * Call)) :
  VStr m ∉ warnOnceMessages w ->
  VStr m ∉ infoOnceMessages w ->
  VStr m ∉ errorOnceMessages w ->
  v ∉ errorOnceMessages w ->
  let wW := snd (Logger.warnOnce this m w) in
  let wI := snd (Logger.infoOnce this m w) in
  let wE := snd (Logger.errorOnce this (VStr m) w) in
  let wV := snd (Logger.errorOnce this v w) in
  (* once only *)
  (Logger.infoOnce this m w
     = Logger.info this m (snd (Logger.record_info (VStr m) w))
   /\ Logger.infoOnce this m wI = (Returns tt, wI)
   /\ forall this' : Logger.t,
        Logger.infoOnce this' m (run_calls later wI)
        = (Returns tt, run_calls later wI))
  /\ (Logger.errorOnce this v w
      = Logger.error this v None (snd (Logger.record_error v w))
      /\ Logger.errorOnce this v wV = (Returns tt, wV)
      /\ forall this' : Logger.t,
           Logger.errorOnce this' v (run_calls later wV)
           = (Returns tt, run_calls later wV))
  (* each method leaves the other two sets alone *)
  /\ (infoOnceMessages wW = infoOnceMessages w
      /\ errorOnceMessages wW = errorOnceMessages w)
  /\ (warnOnceMessages wI = warnOnceMessages w
      /\ errorOnceMessages wI = errorOnceMessages w)
  /\ (warnOnceMessages wE = warnOnceMessages w
      /\ infoOnceMessages wE = infoOnceMessages w)
  (* so a later call of another method is not suppressed *)
  /\ (forall this' : Logger.t,
        Logger.levelFilter this' Error = true ->
        logs_line this' Error m (Logger.errorOnce this' (VStr m)) wW
        /\ logs_line this' Error m (Logger.errorOnce this' (VStr m)) wI)
  /\ (forall this' : Logger.t,
        Logger.levelFilter this' Info = true ->
        logs_line this' Info m (Logger.infoOnce this' m) wW
        /\ logs_line this' Info m (Logger.infoOnce this' m) wE)
  /\ (forall this' : Logger.t,
        Logger.levelFilter this' Warn = true ->
        logs_line this' Warn m (Logger.warnOnce this' m) wI
        /\ logs_line this' Warn m (Logger.warnOnce this' m) wE).
Proof.
  intros HnewW HnewI HnewE HnewV wW wI wE wV.
  pose proof (warnOnce_sets this m w) as HsW.
  pose proof (infoOnce_sets this m w) as HsI.
  pose proof (errorOnce_sets this (VStr m) w) as HsE.
  pose proof (errorOnce_sets this v w) as HsV.
  unfold once_sets in HsW, HsI, HsE, HsV.
  injection HsW as HWw HWi HWe. injection HsI as HIw HIi HIe.
  injection HsE as HEw HEi HEe. injection HsV as HVw HVi HVe.
  fold wW in HWw, HWi, HWe. fold wI in HIw, HIi, HIe.
  fold wE in HEw, HEi, HEe. fold wV in HVw, HVi, HVe.
  assert (HinI : VStr m ∈ infoOnceMessages wI).
  { rewrite HIi. by apply elem_of_union_l, elem_of_singleton. }
  assert (HinV : v ∈ errorOnceMessages wV).
  { rewrite HVe. by apply elem_of_union_l, elem_of_singleton. }
  split; [| split; [| split; [| split; [| split; [| split; [| split]]]]]].
  - split; [by apply infoOnce_fresh |]. split; [by apply infoOnce_seen |].
    intros this'. apply infoOnce_seen. by apply (run_calls_grows later wI).
  - split; [by apply errorOnce_fresh |]. split; [by apply errorOnce_seen |].
    intros this'. apply errorOnce_seen. by apply (run_calls_grows later wV).
  - done.
  - done.
  - done.
  - intros this' Hpass.
    split; apply errorOnce_logs_line; try done; congruence.
  - intros this' Hpass.
    split; apply infoOnce_logs_line; try done; congruence.
  - intros this' Hpass.
    split; apply warnOnce_logs_line; try done; congruence.
Qed.

(** The same message through [warnOnce] and then [errorOnce]. *)
Lemma C4_witness_warn_then_error :
  (VStr "cache ignored" ∉ warnOnceMessages enoentWorld)
  /\ (VStr "cache ignored" ∉ infoOnceMessages enoentWorld)
  /\ (VStr "cache ignored" ∉ errorOnceMessages enoentWorld)
  /\ (VErr 0 ∉ errorOnceMessages enoentWorld)
  /\ logs_line (H := markHost) markLogger Error "cache ignored"
       (Logger.errorOnce (H := markHost) markLogger (VStr "cache ignored"))
       (snd (Logger.warnOnce (H := markHost) markLogger "cache ignored"
               enoentWorld)).
Proof.
  assert (Hnew : forall v : value, v ∉ (∅ : gset value))
    by (intros v; apply not_elem_of_empty).
  repeat (split; [apply Hnew |]).
  destruct (C4_once_sets_independent (H := markHost) markLogger
              "cache ignored" (VErr 0) enoentWorld []
              (Hnew _) (Hnew _) (Hnew _) (Hnew _))
    as (_ & _ & _ & _ & _ & Herror & _).
  exact (proj1 (Herror markLogger eq_refl)).
Defined.

(** ** [NoopLogger] *)

(** C5, at the input where the code departs from it. Called without its
    options argument, [NoopLogger.error] reads [exit] off [undefined] and
    throws a [TypeError]. The rest of the claim holds: with options whose
    [exit] is missing, undefined or false it does nothing, and so does
    every other method of [NoopLogger]; the four plain level methods of a
    [Logger] return. *)
Theorem C5_noop_error_without_options_throws `{Host} (this : Logger.t)
    (message : value) (s : string) (e error : option loc) (w : World) :
  NoopLogger.error message None w
  = (Throws (TypeError_reading_undefined "exit"), w)
  /\ NoopLogger.error message
       (Some {| ErrorOptions.exit := Absent; ErrorOptions.e := e;
                ErrorOptions.error := error |}) w = (Returns tt, w)
  /\ NoopLogger.error message
       (Some {| ErrorOptions.exit := Own None; ErrorOptions.e := e;
                ErrorOptions.error := error |}) w = (Returns tt, w)
  /\ NoopLogger.error message
       (Some {| ErrorOptions.exit := Own (Some false); ErrorOptions.e := e;
                ErrorOptions.error := error |}) w = (Returns tt, w)
  /\ NoopLogger.trace s w = (Returns tt, w)
  /\ NoopLogger.debug s w = (Returns tt, w)
  /\ NoopLogger.info s w = (Returns tt, w)
  /\ NoopLogger.warn s w = (Returns tt, w)
  /\ NoopLogger.infoOnce s w = (Returns tt, w)
  /\ NoopLogger.warnOnce s w = (Returns tt, w)
  /\ NoopLogger.errorOnce message w = (Returns tt, w)
  /\ fst (Logger.trace this s w) = Returns tt
  /\ fst (Logger.debug this s w) = Returns tt
  /\ fst (Logger.info this s w) = Returns tt
  /\ fst (Logger.warn this s w) = Returns tt.
Proof.
  assert (Hlog : forall level color,
    fst (Logger.logMessage this level (VStr s) color true w) = Returns tt).
  { intros level color. destruct (Logger.levelFilter this level) eqn:Hf.
    - by rewrite logMessage_string.
    - by rewrite logMessage_blocked. }
  repeat split; apply Hlog.
Qed.

(** ** Causes and wrapped strings *)

(** C6, as amended. When a cause is supplied with a string message, as
    [e] or, in the absence of [e], as [error], [Logger.error] appends a
    line feed, ["Caused by: "] and the cause's stack, or the cause's string
    form when it has no stack, to the message of the error it reports.
    When the rank of [error] is not NaN that error is rendered: what is
    logged is its string form, which reads ["Error: "], the message [s]
    and the appended text. *)
Theorem C6_cause_appended `{Host} (this : Logger.t) (s : string)
    (eo : ErrorOptions.t) (c : loc) (w : World) (co : JsError.t) :
  ErrorOptions.e eo = Some c
  \/ (ErrorOptions.e eo = None /\ ErrorOptions.error eo = Some c) ->
  heap w !! c = Some co ->
  let w' := snd (Logger.error this (VStr s) (Some eo) w) in
  let appended :=
    LF +:+ "Caused by: "
    +:+ default (JsError.toString co) (JsError.stack co) in
  heap w' !! length (heap w)
  = Some
      {| JsError.name := "Error"; JsError.message := s +:+ appended;
         JsError.stack := Some ""; JsError.cause := None;
         JsError.message_assignable := true;
         JsError.cause_assignable := true |}
  /\ (is_NaN (PerLevel.get (Logger.levelValues this) Error) = false ->
      events w'
      = events w
        ++ lineEvents this Error
             (Colors.red colors ("Error: " +:+ s +:+ appended))).
Proof.
  intros Hfield Hco w' appended.
  assert (Hcause : cause_is w (Some eo) (Some co)).
  { unfold cause_is. simpl.
    destruct Hfield as [-> | [-> ->]]; exact Hco. }
  assert (Hrun := error_run this (VStr s) (Some eo) w _ (Some co)
                    eq_refl Hcause eq_refl).
  subst w'. rewrite Hrun. simpl. split.
  - apply lookup_last.
  - intros Hrank.
    assert (Hpass : Logger.levelFilter this Error = true)
      by (rewrite levelFilter_NaN; simpl; by rewrite Hrank).
    unfold errorEvents. rewrite Hpass. do 3 f_equal.
    unfold JsError.toString. simpl. by destruct s.
Qed.

(** The error at location 0 as the cause of a string message. *)
Lemma C6_witness_enoent :
  (ErrorOptions.e fatalOptions = Some 0
   \/ (ErrorOptions.e fatalOptions = None
       /\ ErrorOptions.error fatalOptions = Some 0))
  /\ heap enoentWorld !! 0 = Some enoent
  /\ is_NaN (PerLevel.get (Logger.levelValues markLogger) Error) = false
  /\ heap (snd (Logger.error (H := markHost) markLogger
                  (VStr "build failed") (Some fatalOptions) enoentWorld))
     !! 1
     = Some
         {| JsError.name := "Error";
            JsError.message :=
              "build failed" +:+ LF +:+ "Caused by: Error: ENOENT" +:+ LF
              +:+ "    at open (fs.js:1:1)";
            JsError.stack := Some ""; JsError.cause := None;
            JsError.message_assignable := true;
            JsError.cause_assignable := true |}
  /\ events (snd (Logger.error (H := markHost) markLogger
                    (VStr "build failed") (Some fatalOptions) enoentWorld))
     = [consoleLine markLogger Error
          (mark "red"
             ("Error: build failed" +:+ LF +:+ "Caused by: Error: ENOENT"
              +:+ LF +:+ "    at open (fs.js:1:1)"))].
Proof.
  assert (Hfield : ErrorOptions.e fatalOptions = Some 0
   \/ (ErrorOptions.e fatalOptions = None
       /\ ErrorOptions.error fatalOptions = Some 0))
    by (right; split; reflexivity).
  split; [exact Hfield |]. split; [reflexivity |]. split; [reflexivity |].
  destruct (C6_cause_appended (H := markHost) markLogger "build failed"
              fatalOptions 0 enoentWorld enoent Hfield eq_refl)
    as [Hheap Hline].
  split; [exact Hheap | exact (Hline eq_refl)].
Defined.

(** C6, as stated, fails on a logger whose rank of [error] is NaN: the
    text is appended to the message of the new error, and nothing is
    rendered. *)
Lemma C6_counterexample_NaN_error_rank :
  heap (snd (Logger.error (H := plainHost) nanLogger (VStr "boom")
               (Some causeOptions) enoentWorld))
  !! 1
  = Some
      {| JsError.name := "Error";
         JsError.message :=
           "boom" +:+ LF +:+ "Caused by: Error: ENOENT" +:+ LF
           +:+ "    at open (fs.js:1:1)";
         JsError.stack := Some ""; JsError.cause := None;
         JsError.message_assignable := true;
         JsError.cause_assignable := true |}
  /\ events (snd (Logger.error (H := plainHost) nanLogger (VStr "boom")
                    (Some causeOptions) enoentWorld))
     = [].
Proof. split; reflexivity. Qed.

(** C7, as amended. Without a cause, a string [s] given to
    [Logger.error] is wrapped in a new error object whose message is [s]
    and whose stack is the empty string; when the rank of [error] is not
    NaN, what is logged is the string form of that object, which holds the
    name and the message and no stack frame. An error object given to
    [Logger.error] without a cause is reported as it is: nothing is
    allocated and the heap is unchanged. *)
Theorem C7_string_wrapped_object_kept `{Host} (this : Logger.t) (s : string)
    (l : loc) (target : JsError.t) (eo : option ErrorOptions.t) (w : World) :
  Logger.causeOf eo = None ->
  heap w !! l = Some target ->
  let wS := snd (Logger.error this (VStr s) eo w) in
  let wO := snd (Logger.error this (VErr l) eo w) in
  heap wS
  = heap w
    ++ [{| JsError.name := "Error"; JsError.message := s;
           JsError.stack := Some ""; JsError.cause := None;
           JsError.message_assignable := true;
           JsError.cause_assignable := true |}]
  /\ (is_NaN (PerLevel.get (Logger.levelValues this) Error) = false ->
      events wS
      = events w
        ++ lineEvents this Error
             (Colors.red colors
                (match s with "" => "Error" | _ => "Error: " +:+ s end)))
  /\ heap wO = heap w
  /\ (is_NaN (PerLevel.get (Logger.levelValues this) Error) = false ->
      events wO
      = events w
        ++ lineEvents this Error
             (Colors.red colors (JsError.toString target))).
Proof.
  intros Hnone Htarget wS wO.
  assert (Hcause : cause_is w eo None) by (unfold cause_is; by rewrite Hnone).
  assert (HS := error_run this (VStr s) eo w _ None eq_refl Hcause eq_refl).
  assert (HO := error_run this (VErr l) eo w target None Htarget Hcause
                  eq_refl).
  assert (Hpass : is_NaN (PerLevel.get (Logger.levelValues this) Error)
                  = false -> Logger.levelFilter this Error = true).
  { intros Hrank. by rewrite levelFilter_NaN, Hrank. }
  subst wS wO. rewrite HS, HO.
  split; [reflexivity |]. split; [| split].
  - intros Hrank. simpl. unfold errorEvents. rewrite (Hpass Hrank).
    by destruct s.
  - simpl. by apply list_insert_id.
  - intros Hrank. simpl. unfold errorEvents. by rewrite (Hpass Hrank).
Qed.

(** The string ["boom"], and the error at location 0, without options. *)
Lemma C7_witness_boom :
  Logger.causeOf None = None
  /\ heap enoentWorld !! 0 = Some enoent
  /\ is_NaN (PerLevel.get (Logger.levelValues markLogger) Error) = false
  /\ heap (snd (Logger.error (H := markHost) markLogger (VStr "boom") None
                  enoentWorld))
     = [enoent;
        {| JsError.name := "Error"; JsError.message := "boom";
           JsError.stack := Some ""; JsError.cause := None;
           JsError.message_assignable := true;
           JsError.cause_assignable := true |}]
  /\ events (snd (Logger.error (H := markHost) markLogger (VStr "boom")
                    None enoentWorld))
     = [consoleLine markLogger Error (mark "red" "Error: boom")]
  /\ heap (snd (Logger.error (H := markHost) markLogger (VErr 0) None
                  enoentWorld))
     = [enoent].
Proof.
  split; [reflexivity |]. split; [reflexivity |]. split; [reflexivity |].
  destruct (C7_string_wrapped_object_kept (H := markHost) markLogger "boom"
              0 enoent None enoentWorld eq_refl eq_refl)
    as (HS & HlineS & HO & _).
  split; [exact HS |]. split; [exact (HlineS eq_refl) | exact HO].
Defined.

(** C7, as stated, fails when a cause is supplied: the message of the
    wrapping object is not the string but the string with the cause text
    after it, the stack frames of the cause are rendered, and an error
    object that is passed is not used as it is, its message is rewritten.
    It also fails on a logger whose rank of [error] is NaN, which renders
    nothing. *)
Lemma C7_counterexample_with_cause :
  heap (snd (Logger.error (H := markHost) markLogger (VStr "boom")
               (Some causeOptions) enoentWorld))
  !! 1
  = Some
      {| JsError.name := "Error";
         JsError.message :=
           "boom" +:+ LF +:+ "Caused by: Error: ENOENT" +:+ LF
           +:+ "    at open (fs.js:1:1)";
         JsError.stack := Some ""; JsError.cause := None;
         JsError.message_assignable := true;
         JsError.cause_assignable := true |}
  /\ events (snd (Logger.error (H := markHost) markLogger (VStr "boom")
                    (Some causeOptions) enoentWorld))
     = [consoleLine markLogger Error
          (mark "red"
             ("Error: boom" +:+ LF +:+ "Caused by: Error: ENOENT" +:+ LF
              +:+ "    at open (fs.js:1:1)"))]
  /\ heap (snd (Logger.error (H := markHost) markLogger (VErr 1)
                  (Some causeOptions) twoErrorsWorld))
     !! 1
     = Some
         (JsError.set_message
            ("build failed" +:+ LF +:+ "Caused by: Error: ENOENT" +:+ LF
             +:+ "    at open (fs.js:1:1)")
            buildFailed)
  /\ events (snd (Logger.error (H := plainHost) nanLogger (VStr "boom")
                    None enoentWorld))
     = [].
Proof. repeat split; reflexivity. Qed.

(** ** The decision to exit *)

(** C10. [Logger.error] exits exactly when [exit] is truthy in the per-call
    options spread over the logger's options. For a [Logger] constructed
    with [exit: true]: a call without options, or with options that have no
    [exit] property, ends the process with status 1; a call with
    [exit: false] returns. The decision is reached unless the call has to
    chain a cause to an error object that refuses the assignment to its
    message, where it throws the [TypeError] of that assignment before. *)
Theorem C10_exit_option_merged `{Host} (options : LoggerOptions.t)
    (levelValues : option (PerLevel.t number)) (proc : Process)
    (message : value) (e error : option loc) (w : World)
    (target : JsError.t) (co : option JsError.t) :
  LoggerOptions.exit options = Some true ->
  reported w message = Some target ->
  cause_is w
    (Some {| ErrorOptions.exit := Absent; ErrorOptions.e := e;
             ErrorOptions.error := error |}) co ->
  let this := Logger.new (Some options) levelValues proc in
  fst (Logger.error this message None w) = Exits 1
  /\ fst (Logger.error this message
            (Some {| ErrorOptions.exit := Absent; ErrorOptions.e := e;
                     ErrorOptions.error := error |}) w)
     = (if chain_allowed message target co then Exits 1
        else Throws (TypeError_assigning "message"))
  /\ fst (Logger.error this message
            (Some {| ErrorOptions.exit := Own (Some false);
                     ErrorOptions.e := e; ErrorOptions.error := error |}) w)
     = (if chain_allowed message target co then Returns tt
        else Throws (TypeError_assigning "message"))
  /\ (forall (any : Logger.t) (errorOptions : option ErrorOptions.t),
        cause_is w errorOptions co ->
        fst (Logger.error any message errorOptions w)
        = if chain_allowed message target co then
            if truthy_bool (Logger.effectiveExit any errorOptions)
            then Exits 1 else Returns tt
          else Throws (TypeError_assigning "message")).
Proof.
  intros Hexit Hrep Hcause this.
  assert (Hgen : forall (any : Logger.t) errorOptions,
    cause_is w errorOptions co ->
    fst (Logger.error any message errorOptions w)
    = if chain_allowed message target co then
        if truthy_bool (Logger.effectiveExit any errorOptions)
        then Exits 1 else Returns tt
      else Throws (TypeError_assigning "message")).
  { intros any errorOptions Hc.
    rewrite (error_any any message errorOptions w target co) by done.
    by destruct (chain_allowed message target co). }
  assert (Hnone : fst (Logger.error this message None w) = Exits 1).
  { rewrite (error_run this message None w target None) by done.
    unfold exitCompletion, Logger.effectiveExit. subst this.
    by rewrite new_exit; simpl; rewrite Hexit. }
  split; [exact Hnone |]. split; [| split; [| exact Hgen]].
  - rewrite Hgen by exact Hcause. unfold Logger.effectiveExit. simpl.
    subst this. by rewrite Hexit.
  - by rewrite Hgen by exact Hcause.
Qed.

(** A logger constructed with [exit: true], and the string ["boom"]. *)
Lemma C10_witness_exit_by_default :
  LoggerOptions.exit
    {| LoggerOptions.prefix := None; LoggerOptions.allowClearScreen := None;
       LoggerOptions.brandColor := None; LoggerOptions.exit := Some true |}
  = Some true
  /\ reported initial_World (VStr "boom")
     = Some (JsError.create "boom" (Some ""))
  /\ cause_is initial_World
       (Some {| ErrorOptions.exit := Absent; ErrorOptions.e := None;
                ErrorOptions.error := None |}) None
  /\ fst (Logger.error (H := markHost)
            (Logger.new (H := markHost)
               (Some {| LoggerOptions.prefix := None;
                        LoggerOptions.allowClearScreen := None;
                        LoggerOptions.brandColor := None;
                        LoggerOptions.exit := Some true |})
               None ciRun)
            (VStr "boom") None initial_World) = Exits 1
  /\ fst (Logger.error (H := markHost)
            (Logger.new (H := markHost)
               (Some {| LoggerOptions.prefix := None;
                        LoggerOptions.allowClearScreen := None;
                        LoggerOptions.brandColor := None;
                        LoggerOptions.exit := Some true |})
               None ciRun)
            (VStr "boom")
            (Some {| ErrorOptions.exit := Own (Some false);
                     ErrorOptions.e := None; ErrorOptions.error := None |})
            initial_World) = Returns tt.
Proof.
  split; [reflexivity |]. split; [reflexivity |]. split; [exact I |].
  destruct (C10_exit_option_merged (H := markHost)
              {| LoggerOptions.prefix := None;
                 LoggerOptions.allowClearScreen := None;
                 LoggerOptions.brandColor := None;
                 LoggerOptions.exit := Some true |}
              None ciRun (VStr "boom") None None initial_World
              (JsError.create "boom" (Some "")) None eq_refl eq_refl I)
    as (Hnone & _ & Hfalse & _).
  split; [exact Hnone | exact Hfalse].
Defined.

(** ** [buildErrorMessage] *)

Lemma split_LF_one (s : string) : has_LF s = false -> split_LF s = [s].
Proof.
  induction s as [| c rest IH]; [done |]. simpl.
  destruct (Ascii.eqb c "010"); [done |]. simpl.
  intros Hrest. by rewrite IH.
Qed.

Lemma split_LF_line (a rest : string) :
  has_LF a = false -> split_LF (a +:+ LF +:+ rest) = a :: split_LF rest.
Proof.
  induction a as [| c a IH]; [done |]. simpl.
  destruct (Ascii.eqb c "010"); [done |]. simpl.
  intros Ha. by rewrite IH.
Qed.

(** No line of a split holds a line feed. *)
Lemma split_LF_lines (s : string) :
  Forall (fun l => has_LF l = false) (split_LF s).
Proof.
  induction s as [| c rest IH]; simpl; [by repeat constructor |].
  destruct (Ascii.eqb c "010") eqn:Hc; [by constructor |].
  destruct (split_LF rest) as [| first others];
    [by repeat constructor; simpl; rewrite Hc |].
  inversion IH as [| ? ? Hfirst Hothers]; subst.
  constructor; [| done]. simpl. by rewrite Hc.
Qed.

(** Splitting a join gives the lines back. *)
Lemma split_LF_join (first : string) (others : list string) :
  Forall (fun l => has_LF l = false) (first :: others) ->
  split_LF (join LF (first :: others)) = first :: others.
Proof.
  revert first. induction others as [| second others IH]; intros first Hall.
  - simpl. apply split_LF_one. by inversion Hall.
  - inversion Hall as [| ? ? Hfirst Hrest]; subst.
    change (join LF (first :: second :: others))
      with (first +:+ LF +:+ join LF (second :: others)).
    rewrite split_LF_line by done. by rewrite IH.
Qed.

(** The lines of a cleaned stack are the lines of the stack that match
    [/^\s*at/], in their order. *)
Lemma cleanStack_lines (stack : string) :
  let kept := filter (fun l => test_at l = true) (split_LF stack) in
  Forall (fun l => test_at l = true) kept
  /\ split_LF (cleanStack stack)
     = match kept with [] => [EmptyString] | _ => kept end.
Proof.
  intros kept. split.
  - apply Forall_forall. intros l Hl.
    by apply list_elem_of_filter in Hl as [Hl _].
  - unfold cleanStack. fold kept.
    assert (Hkept : Forall (fun l => has_LF l = false) kept).
    { apply Forall_forall. intros l Hl.
      apply list_elem_of_filter in Hl as [_ Hl].
      revert l Hl. apply Forall_forall, split_LF_lines. }
    destruct kept as [| first others]; [done |].
    by apply split_LF_join.
Qed.

(** C8. [buildErrorMessage] reads each of [plugin], [loc], [id], [frame]
    and [stack] only after testing it. The report is the given lines
    followed by: the plugin line if [plugin] is present; the file line if
    [id] is present, ending in [:line:column] if [loc] is present as well;
    the frame if [frame] is present; and, if [includeStack] is true and
    [stack] is present, the cleaned stack. A field that is missing adds
    nothing. The cleaned stack is made of the lines of the stack that
    match [/^\s*at/], in their order, and of no other line. *)
Theorem C8_buildErrorMessage_blocks `{Host} (err : Failure.t)
    (args : list string) (includeStack : bool) (stack : string) :
  buildErrorMessage err (Some args) (Some includeStack)
  = join LF
      (args
       ++ block (fun plugin => "  Plugin: " +:+ Colors.magenta colors plugin)
            (Failure.plugin err)
       ++ block
            (fun id =>
               "  File: " +:+ Colors.cyan colors id
               +:+ match Failure.loc err with
                   | Some p =>
                       ":" +:+ pretty (Failure.line p) +:+ ":"
                       +:+ pretty (Failure.column p)
                   | None => ""
                   end)
            (Failure.id err)
       ++ block (fun frame => Colors.yellow colors (pad frame))
            (Failure.frame err)
       ++ (if includeStack
           then block (fun stack => pad (cleanStack stack))
                  (Failure.stack err)
           else []))
  /\ buildErrorMessage err None None
     = buildErrorMessage err (Some []) (Some true)
  /\ (let kept := filter (fun l => test_at l = true) (split_LF stack) in
      Forall (fun l => test_at l = true) kept
      /\ split_LF (cleanStack stack)
         = match kept with [] => [EmptyString] | _ => kept end)
  /\ buildErrorMessage
       {| Failure.plugin := None;
          Failure.loc := Some {| Failure.line := 3; Failure.column := 5 |};
          Failure.id := Some "src/a.ts";
          Failure.frame := None;
          Failure.stack :=
            Some ("Error: x" +:+ LF +:+ "    at foo (a.ts:3:5)" +:+ LF
                  +:+ "other junk") |}
       (Some []) (Some true)
     = ("  File: " +:+ Colors.cyan colors "src/a.ts" +:+ ":3:5") +:+ LF
       +:+ pad "    at foo (a.ts:3:5)".
Proof.
  split; [| split; [reflexivity | split; [apply cleanStack_lines |]]].
  - unfold buildErrorMessage, buildErrorArgs, push, block, truthy. simpl.
    f_equal.
    destruct (Failure.plugin err) as [[| ? ?] |],
             (Failure.id err) as [[| ? ?] |],
             (Failure.frame err) as [[| ? ?] |],
             includeStack, (Failure.stack err) as [[| ? ?] |];
      simpl; rewrite <- ?app_assoc, ?app_nil_r; reflexivity.
  - vm_compute. reflexivity.
Qed.

(** ** [printServerUrls] *)

Lemma bind_assoc {A B C} (m : M A) (f : A -> M B) (g : B -> M C) (w : World) :
  ((m ≫= f) ≫= g) w = (m ≫= (fun a => f a ≫= g)) w.
Proof.
  unfold mbind, M_bind. by destruct (m w) as [[a | t | c |] w'].
Qed.

Lemma bind_ext {A B} (m : M A) (f g : A -> M B) (w : World) :
  (forall a w', f a w' = g a w') -> (m ≫= f) w = (m ≫= g) w.
Proof.
  intros Hfg. unfold mbind, M_bind.
  destruct (m w) as [[a | t | c |] w']; auto.
Qed.

Lemma bind_cong {A B} (m m' : M A) (f g : A -> M B) (w : World) :
  (forall w', m w' = m' w') -> (forall a w', f a w' = g a w') ->
  (m ≫= f) w = (m' ≫= g) w.
Proof.
  intros Hm Hfg. unfold mbind, M_bind. rewrite Hm.
  destruct (m' w) as [[a | t | c |] w']; auto.
Qed.

Lemma bind_mret_r (m : M unit) (w : World) :
  (m ≫= fun _ => mret tt) w = m w.
Proof.
  unfold mbind, M_bind, mret, M_ret.
  by destruct (m w) as [[[] | t | c |] w'].
Qed.

Lemma forEach_app {A} (xs ys : list A) (body : A -> M unit) (w : World) :
  forEach (xs ++ ys) body w = (forEach xs body ;; forEach ys body) w.
Proof.
  revert w. induction xs as [| x xs IH]; intros w; simpl; [done |].
  rewrite bind_assoc. apply bind_ext. intros _ w'. apply IH.
Qed.

Lemma forEach_map {A B} (g : A -> B) (xs : list A) (body : B -> M unit)
    (w : World) :
  forEach (map g xs) body w = forEach xs (fun x => body (g x)) w.
Proof.
  revert w. induction xs as [| x xs IH]; intros w; simpl; [done |].
  apply bind_ext. intros _ w'. apply IH.
Qed.

Section WithHost.
Context `{Host}.

(** The two loops and the test are one loop over [serverUrlLines]. *)
Lemma printServerUrls_forEach urls host (lg : ILogger.t) w :
  printServerUrls urls host lg w
  = forEach (serverUrlLines urls host) (ILogger.info lg) w.
Proof.
  unfold printServerUrls, serverUrlLines.
  rewrite forEach_app.
  apply bind_cong; [intros w1; by rewrite forEach_map |]. intros _ w1.
  rewrite forEach_app.
  apply bind_cong; [intros w2; by rewrite forEach_map |]. intros _ w2.
  destruct (ResolvedServerUrls.network urls) as [| url rest], host;
    simpl; try reflexivity.
  by rewrite bind_mret_r.
Qed.

Lemma forEach_info this lines w :
  Logger.levelFilter this Info = true ->
  forEach lines (Logger.info this) w
  = (Returns tt, add_events (flat_map (lineEvents this Info) lines) w).
Proof.
  intros Hpass. revert w.
  induction lines as [| line lines IH]; intros w; simpl.
  - by rewrite add_events_nil.
  - erewrite bind_Returns
      by (unfold Logger.info; by apply logMessage_string).
    by rewrite IH, add_events_app.
Qed.

Lemma forEach_noop (lines : list string) w :
  forEach lines NoopLogger.info w = (Returns tt, w).
Proof. induction lines as [| line lines IH]; [done | exact IH]. Qed.

End WithHost.

(** C9. [printServerUrls] does nothing but call [logger.info], once for
    each message of [serverUrlLines], in order, and these messages are,
    character for character: for each local URL the bold green arrow, a
    space, bold [Local], a colon, three spaces and the bold cyan URL with
    its port in bold; for each network URL the same with bold [Network],
    a colon and one space; and then, exactly when the network list is empty
    and the host option is undefined, one hint made of the dim text
    ["  ➜  Network: use "], bold [--host] and dim [" to expose"]. So there
    is one line per local URL, one per network URL, and one hint or none.
    On a [Logger] whose [info] passes the filter each message is one console
    line; on a [NoopLogger] nothing happens. *)
Theorem C9_printServerUrls_lines `{Host} (urls : ResolvedServerUrls.t)
    (optionsHost : HostOption) (logger : ILogger.t) (this : Logger.t)
    (w : World) :
  let arrow := Colors.bold colors (Colors.green colors "➜") in
  let shown (url : string) :=
    Colors.bold colors
      (Colors.cyan colors (replace_port (Colors.bold colors) url)) in
  let localLines :=
    map (fun url =>
           arrow +:+ " " +:+ Colors.bold colors "Local" +:+ ":   "
           +:+ shown url)
      (ResolvedServerUrls.local urls) in
  let networkLines :=
    map (fun url =>
           arrow +:+ " " +:+ Colors.bold colors "Network" +:+ ": "
           +:+ shown url)
      (ResolvedServerUrls.network urls) in
  let hint :=
    Colors.dim colors
      ("  " +:+ Colors.green colors "➜" +:+ "  "
       +:+ Colors.bold colors "Network" +:+ ": use ")
    +:+ Colors.bold colors "--host"
    +:+ Colors.dim colors " to expose" in
  let hints :=
    match ResolvedServerUrls.network urls, optionsHost with
    | [], HostUndefined => [hint]
    | _, _ => []
    end in
  printServerUrls urls optionsHost logger w
  = forEach (serverUrlLines urls optionsHost) (ILogger.info logger) w
  /\ (ResolvedServerUrls.network urls = [] ->
      serverUrlLines urls HostUndefined
      = map localLine (ResolvedServerUrls.local urls) ++ [hostHintLine])
  /\ (ResolvedServerUrls.network urls <> [] ->
      serverUrlLines urls optionsHost
      = map localLine (ResolvedServerUrls.local urls)
        ++ map networkLine (ResolvedServerUrls.network urls))
  /\ (optionsHost <> HostUndefined ->
      serverUrlLines urls optionsHost
      = map localLine (ResolvedServerUrls.local urls)
        ++ map networkLine (ResolvedServerUrls.network urls))
  /\ (Logger.levelFilter this Info = true ->
      printServerUrls urls optionsHost (Logger.as_ILogger this) w
      = (Returns tt,
         add_events
           (flat_map (lineEvents this Info)
              (serverUrlLines urls optionsHost)) w))
  /\ printServerUrls urls optionsHost NoopLogger.as_ILogger w
     = (Returns tt, w)
  /\ printServerUrls urls optionsHost logger w
     = forEach (localLines ++ networkLines ++ hints) (ILogger.info logger) w
  /\ (Logger.levelFilter this Info = true ->
      events (snd (printServerUrls urls optionsHost
                     (Logger.as_ILogger this) w))
      = events w
        ++ flat_map (lineEvents this Info)
             (localLines ++ networkLines ++ hints))
  /\ length (localLines ++ networkLines ++ hints)
     = length (ResolvedServerUrls.local urls)
       + length (ResolvedServerUrls.network urls)
       + (if bool_decide (length (ResolvedServerUrls.network urls) = 0)
             && match optionsHost with HostUndefined => true | _ => false end
          then 1 else 0).
Proof.
  intros arrow shown localLines networkLines hint hints.
  assert (Hlines : serverUrlLines urls optionsHost
                   = localLines ++ networkLines ++ hints) by reflexivity.
  split; [apply printServerUrls_forEach |].
  split; [| split; [| split; [| split; [| split; [| split; [| split]]]]]].
  - intros Hnet. unfold serverUrlLines. by rewrite Hnet.
  - intros Hnet. unfold serverUrlLines.
    destruct (ResolvedServerUrls.network urls); [done |].
    by rewrite app_nil_r.
  - intros Hhost. unfold serverUrlLines.
    destruct (ResolvedServerUrls.network urls), optionsHost;
      try done; by rewrite app_nil_r.
  - intros Hpass. rewrite printServerUrls_forEach. by apply forEach_info.
  - rewrite printServerUrls_forEach. apply forEach_noop.
  - rewrite <- Hlines. apply printServerUrls_forEach.
  - intros Hpass. rewrite <- Hlines, printServerUrls_forEach.
    by rewrite (forEach_info this _ w Hpass).
  - subst localLines networkLines hints.
    rewrite !length_app, !length_map.
    destruct (ResolvedServerUrls.network urls) as [| url rest],
      optionsHost; simpl; lia.
Qed.

(** The example of the specification: one local URL, no network URL, no
    host option. The logger writes the [Local] line and the hint naming
    [--host], each after its banner. *)
Lemma C9_witness_localhost :
  ResolvedServerUrls.network
    {| ResolvedServerUrls.local := ["http://localhost:3000/"];
       ResolvedServerUrls.network := [] |} = []
  /\ Logger.levelFilter markLogger Info = true
  /\ events
       (snd (printServerUrls (H := markHost)
               {| ResolvedServerUrls.local := ["http://localhost:3000/"];
                  ResolvedServerUrls.network := [] |}
               HostUndefined (Logger.as_ILogger (H := markHost) markLogger)
               initial_World))
     = [consoleLine markLogger Info
          (localLine (H := markHost) "http://localhost:3000/");
        consoleLine markLogger Info (hostHintLine (H := markHost))]
  /\ events
       (snd (printServerUrls (H := markHost)
               {| ResolvedServerUrls.local := ["http://localhost:3000/"];
                  ResolvedServerUrls.network := [] |}
               HostUndefined (Logger.as_ILogger (H := markHost) markLogger)
               initial_World))
     = [EvConsole console_log
          ("<brand><b>[ <b>Farm</b> ]</b> </brand>"
           +:+ "<b><green>➜</green></b> <b>Local</b>:   "
           +:+ "<b><cyan>http://localhost:<b>3000</b>/</cyan></b>");
        EvConsole console_log
          ("<brand><b>[ <b>Farm</b> ]</b> </brand>"
           +:+ "<dim>  <green>➜</green>  <b>Network</b>: use </dim>"
           +:+ "<b>--host</b><dim> to expose</dim>")].
Proof.
  split; [reflexivity |]. split; [reflexivity |].
  destruct (C9_printServerUrls_lines (H := markHost)
              {| ResolvedServerUrls.local := ["http://localhost:3000/"];
                 ResolvedServerUrls.network := [] |}
              HostUndefined (NoopLogger.as_ILogger (H := markHost))
              markLogger initial_World)
    as (_ & _ & _ & _ & Hlogger & _ & _ & Htexts & _).
  split.
  - rewrite (Hlogger eq_refl). reflexivity.
  - rewrite (Htexts eq_refl). vm_compute. reflexivity.
Defined.

(** * Further properties of the module *)

(** ** What a call writes *)

Lemma writes_bind {A B} (ok : Event -> Prop) (m : M A) (f : A -> M B) :
  writes ok m -> (forall a, writes ok (f a)) -> writes ok (m ≫= f).
Proof.
  intros Hm Hf w. unfold mbind, M_bind.
  destruct (Hm w) as (evs & Hevs & Hok).
  destruct (m w) as [[a | t | c |] w']; simpl in *; eauto.
  destruct (Hf a w') as (evs' & Hevs' & Hok').
  exists (evs ++ evs'). split.
  - by rewrite Hevs', Hevs, app_assoc.
  - by apply Forall_app.
Qed.

(** A step that leaves the output alone. *)
Lemma writes_quiet {A} (ok : Event -> Prop) (c : M A) :
  (forall w, events (snd (c w)) = events w) -> writes ok c.
Proof.
  intros Hc w. exists []. split; [by rewrite Hc, app_nil_r | constructor].
Qed.

Lemma writes_emit (ok : Event -> Prop) (ev : Event) :
  ok ev -> writes ok (emit ev).
Proof. intros Hev w. exists [ev]. split; [done | by repeat constructor]. Qed.

Lemma writes_deref (ok : Event -> Prop) (l : loc) : writes ok (deref l).
Proof.
  apply writes_quiet. intros w. unfold deref. by destruct (heap w !! l).
Qed.

Lemma writes_assign (ok : Event -> Prop) (l : loc) (prop : string)
    (can : JsError.t -> bool) (o : JsError.t) :
  writes ok (assign l prop can o).
Proof.
  apply writes_quiet. intros w. unfold assign.
  destruct (heap w !! l) as [o0 |]; [| done]. by destruct (can o0).
Qed.

Lemma writes_toStr (ok : Event -> Prop) (message : value) :
  writes ok (toStr message).
Proof.
  destruct message; simpl; [by apply writes_quiet |].
  apply writes_bind; [apply writes_deref | intros; by apply writes_quiet].
Qed.

Lemma writes_forEach {A} (ok : Event -> Prop) (xs : list A)
    (body : A -> M unit) :
  (forall x, writes ok (body x)) -> writes ok (forEach xs body).
Proof.
  intros Hbody. induction xs as [| x xs IH]; simpl; [by apply writes_quiet |].
  apply writes_bind; [apply Hbody | intros; apply IH].
Qed.

Create HintDb writes.

#[local] Hint Resolve writes_deref writes_assign writes_toStr : writes.

(** Splits a computation along its binds and branches; what is left are
    the console calls. *)
Ltac writes_step :=
  repeat first
    [ apply writes_bind; [| intros]
    | progress auto with writes
    | solve [apply writes_quiet; intros; reflexivity]
    | match goal with
      | |- writes _ (match ?x with _ => _ end) => destruct x
      | |- writes _ (if ?b then _ else _) => destruct b
      end ].

Section WithHost.
Context `{Host}.

Lemma writes_logMessage (ok : Event -> Prop) this level message color
    showBanner :
  (forall text,
     ok (EvConsole (default console_log (LOGGER_METHOD level)) text)) ->
  Forall ok (clearEvents this) ->
  writes ok (Logger.logMessage this level message color showBanner).
Proof.
  intros Hline Hclear. unfold Logger.logMessage.
  destruct (Logger.levelFilter this level); [| by apply writes_quiet].
  apply writes_bind.
  - unfold clearEvents in Hclear.
    destruct (Logger.canClearScreen this); [| by apply writes_quiet].
    destruct (Logger.clear this); simpl; [| by apply writes_quiet].
    apply writes_emit. by inversion Hclear.
  - intros _. apply writes_bind; [writes_step |].
    intros text. by apply writes_emit.
Qed.

Lemma writes_error (ok : Event -> Prop) this message errorOptions :
  (forall text, ok (EvConsole console_error text)) ->
  Forall ok (clearEvents this) ->
  writes ok (Logger.error this message errorOptions).
Proof.
  intros Hline Hclear. unfold Logger.error.
  writes_step; by apply writes_logMessage.
Qed.

Lemma writes_noop_error (ok : Event -> Prop) message errorOptions :
  writes ok (NoopLogger.error message errorOptions).
Proof. unfold NoopLogger.error. writes_step. Qed.

(** Every call on a [Logger] writes through the console method of the
    call, apart from the clears the logger is allowed. *)
Lemma writes_run_Logger (ok : Event -> Prop) this c :
  from_module c ->
  (forall text, ok (EvConsole (method_of_call c) text)) ->
  Forall ok (clearEvents this) ->
  writes ok (run (OnLogger this) c).
Proof.
  intros Hc Hline Hclear.
  destruct c; simpl in *; try contradiction;
    unfold Logger.trace, Logger.debug, Logger.info, Logger.warn,
      Logger.infoOnce, Logger.warnOnce, Logger.errorOnce,
      Logger.hasErrorLogged, Logger.hasWarnLogged, Logger.has,
      printServerUrls;
    writes_step;
    try (apply writes_forEach; intros);
    solve [ by apply writes_logMessage | by apply writes_error ].
Qed.

End WithHost.

Section WithHost.
Context `{Host}.

Lemma writes_logMessage_banner (ok : Event -> Prop) this level message
    color :
  (forall body,
     ok (EvConsole (default console_log (LOGGER_METHOD level))
           (PerLevel.get (Logger.colorMap this) level
              (Logger.prefixText this)
            +:+ body))) ->
  Forall ok (clearEvents this) ->
  writes ok (Logger.logMessage this level message color true).
Proof.
  intros Hline Hclear. unfold Logger.logMessage.
  destruct (Logger.levelFilter this level); [| by apply writes_quiet].
  apply writes_bind.
  - unfold clearEvents in Hclear.
    destruct (Logger.canClearScreen this); [| by apply writes_quiet].
    destruct (Logger.clear this); simpl; [| by apply writes_quiet].
    apply writes_emit. by inversion Hclear.
  - intros _. apply writes_bind; [writes_step |].
    intros text. apply writes_emit, Hline.
Qed.

Lemma writes_run_Logger_banner (ok : Event -> Prop) this c :
  from_module c ->
  (forall body,
     ok (EvConsole (method_of_call c)
           (PerLevel.get (Logger.colorMap this) (level_of_call c)
              (Logger.prefixText this)
            +:+ body))) ->
  Forall ok (clearEvents this) ->
  writes ok (run (OnLogger this) c).
Proof.
  intros Hc Hline Hclear.
  destruct c; simpl in *; try contradiction;
    unfold Logger.trace, Logger.debug, Logger.info, Logger.warn,
      Logger.infoOnce, Logger.warnOnce, Logger.errorOnce, Logger.error,
      Logger.hasErrorLogged, Logger.hasWarnLogged, Logger.has,
      printServerUrls;
    writes_step;
    try (apply writes_forEach; intros);
    by apply writes_logMessage_banner.
Qed.

End WithHost.

(** X1. A call on a [Logger] keeps what the console shows and adds to it
    only screen clears and console calls that go through one method and
    start with the banner: [warn] and [warnOnce] write through
    [console.warn], [error] and [errorOnce] through [console.error], every
    other call, [printServerUrls] included, through [console.log], and
    each text begins with the logger's prefix in the colour of the level.
    No public call writes a line without the banner. *)
Theorem X1_console_method_of_call `{Host} (this : Logger.t) (c : Call)
    (w : World) :
  from_module c ->
  exists evs,
    events (snd (run (OnLogger this) c w)) = events w ++ evs
    /\ Forall (clear_or_bannered this c) evs.
Proof.
  intros Hc. apply writes_run_Logger_banner; [exact Hc | |].
  - intros body. right. by exists body.
  - apply Forall_forall. intros ev Hev. left.
    unfold clearEvents in Hev.
    destruct (Logger.canClearScreen this), (Logger.clear this);
      try by apply elem_of_nil in Hev.
    by apply list_elem_of_singleton in Hev.
Qed.

(** [errorOnce] on the default logger. *)
Lemma X1_witness_errorOnce :
  from_module (CallErrorOnce (VStr "boom"))
  /\ exists evs,
       events (snd (run (H := markHost) (OnLogger markLogger)
                      (CallErrorOnce (VStr "boom")) enoentWorld))
       = events enoentWorld ++ evs
       /\ Forall (clear_or_bannered markLogger
                    (CallErrorOnce (VStr "boom"))) evs.
Proof.
  split; [exact I |].
  exact (X1_console_method_of_call (H := markHost) markLogger
           (CallErrorOnce (VStr "boom")) enoentWorld I).
Defined.

Section WithHost.
Context `{Host}.

(** [setPrefix] changes the banner and nothing else. *)
Lemma setPrefix_frame options this :
  Logger.levelValues (Logger.setPrefix options this)
  = Logger.levelValues this
  /\ Logger.canClearScreen (Logger.setPrefix options this)
     = Logger.canClearScreen this
  /\ Logger.clear (Logger.setPrefix options this) = Logger.clear this
  /\ Logger.colorMap (Logger.setPrefix options this) = Logger.colorMap this
  /\ LoggerOptions.exit (Logger.options (Logger.setPrefix options this))
     = LoggerOptions.exit (Logger.options this)
  /\ LoggerOptions.allowClearScreen
       (Logger.options (Logger.setPrefix options this))
     = LoggerOptions.allowClearScreen (Logger.options this)
  /\ LoggerOptions.brandColor
       (Logger.options (Logger.setPrefix options this))
     = LoggerOptions.brandColor (Logger.options this).
Proof.
  unfold Logger.setPrefix.
  by destruct (truthy_string (LoggerOptions.prefix options)).
Qed.

Lemma clearEvents_setPrefixes (prefixes : list LoggerOptions.t) this :
  clearEvents (foldr Logger.setPrefix this prefixes) = clearEvents this.
Proof.
  induction prefixes as [| o prefixes IH]; [done |]. simpl.
  destruct (setPrefix_frame o (foldr Logger.setPrefix this prefixes))
    as (_ & Hcan & Hclear & _).
  unfold clearEvents in *. by rewrite Hcan, Hclear.
Qed.

Lemma levelFilter_setPrefixes (prefixes : list LoggerOptions.t) this level :
  Logger.levelFilter (foldr Logger.setPrefix this prefixes) level
  = Logger.levelFilter this level.
Proof.
  induction prefixes as [| o prefixes IH]; [done |]. simpl.
  destruct (setPrefix_frame o (foldr Logger.setPrefix this prefixes))
    as (Hlv & _).
  unfold Logger.levelFilter in *. by rewrite Hlv.
Qed.

(** What the constructor decides about the screen. *)
Lemma new_clearEvents options levelValues proc :
  clearEvents (Logger.new options levelValues proc)
  = if truthy_bool
         (LoggerOptions.allowClearScreen
            (default LoggerOptions.empty options))
       && isTTY proc && negb (truthy_string (CI proc))
    then [EvClear] else [].
Proof.
  unfold clearEvents, Logger.new, Logger.brandPrefix. simpl.
  by destruct (_ && _).
Qed.

End WithHost.

(** X2. Whether a logger clears the screen is decided once, by the
    constructor. A logger constructed without [allowClearScreen: true], or
    when the output is no terminal, or when [CI] is set to a non-empty
    string, never clears the screen: every call on it, also after any
    number of [setPrefix] calls, adds console calls only. *)
Theorem X2_never_clears_unless_interactive `{Host}
    (options : option LoggerOptions.t)
    (levelValues : option (PerLevel.t number)) (proc : Process)
    (prefixes : list LoggerOptions.t) (c : Call) (w : World) :
  LoggerOptions.allowClearScreen (default LoggerOptions.empty options)
  <> Some true
  \/ isTTY proc = false
  \/ truthy_string (CI proc) = true ->
  from_module c ->
  let this :=
    foldr Logger.setPrefix (Logger.new options levelValues proc) prefixes in
  exists evs,
    events (snd (run (OnLogger this) c w)) = events w ++ evs
    /\ Forall (through (method_of_call c)) evs.
Proof.
  intros Hwhy Hc this.
  apply writes_run_Logger; [exact Hc | done |].
  subst this. rewrite clearEvents_setPrefixes, new_clearEvents.
  replace (_ && _) with false; [constructor |].
  destruct Hwhy as [Hallow | [-> | ->]].
  - destruct (LoggerOptions.allowClearScreen _) as [[|] |]; done.
  - by rewrite andb_false_r.
  - by rewrite andb_false_r.
Qed.

(** The clearing options in a CI run, after a change of prefix. *)
Lemma X2_witness_ci :
  (LoggerOptions.allowClearScreen
     (default LoggerOptions.empty (Some clearingOptions)) <> Some true
   \/ isTTY ciRun = false
   \/ truthy_string (CI ciRun) = true)
  /\ from_module (CallWarn "slow")
  /\ exists evs,
       events
         (snd (run (H := markHost)
                 (OnLogger
                    (foldr (Logger.setPrefix (H := markHost))
                       (Logger.new (H := markHost) (Some clearingOptions)
                          None ciRun)
                       [clearingOptions]))
                 (CallWarn "slow") initial_World))
       = events initial_World ++ evs
       /\ Forall (through console_warn) evs.
Proof.
  assert (Hwhy : LoggerOptions.allowClearScreen
     (default LoggerOptions.empty (Some clearingOptions)) <> Some true
   \/ isTTY ciRun = false
   \/ truthy_string (CI ciRun) = true) by (right; left; reflexivity).
  split; [exact Hwhy |]. split; [exact I |].
  exact (X2_never_clears_unless_interactive (H := markHost)
           (Some clearingOptions) None ciRun [clearingOptions]
           (CallWarn "slow") initial_World Hwhy I).
Defined.

(** X3. A logger constructed with [allowClearScreen: true], on a terminal
    and with [CI] unset or empty, clears the screen before every line it
    writes: a level method that passes the filter puts out a clear and
    then its line, and [printServerUrls] puts out a clear before each of
    its lines, so that each line wipes the ones before it. *)
Theorem X3_clears_before_every_line `{Host}
    (options : option LoggerOptions.t)
    (levelValues : option (PerLevel.t number)) (proc : Process)
    (level : LogLevel) (message : string) (urls : ResolvedServerUrls.t)
    (host : HostOption) (w : World) :
  LoggerOptions.allowClearScreen (default LoggerOptions.empty options)
  = Some true ->
  isTTY proc = true ->
  truthy_string (CI proc) = false ->
  let this := Logger.new options levelValues proc in
  Logger.levelFilter this level = true ->
  Logger.levelFilter this Info = true ->
  events (snd (levelMethod this level message w))
  = events w ++ [EvClear; consoleLine this level (methodBody level message)]
  /\ events (snd (printServerUrls urls host (Logger.as_ILogger this) w))
     = events w
       ++ flat_map (fun line => [EvClear; consoleLine this Info line])
            (serverUrlLines urls host).
Proof.
  intros Hallow Htty Hci this Hlevel Hinfo.
  assert (Hclear : clearEvents this = [EvClear]).
  { subst this. by rewrite new_clearEvents, Hallow, Htty, Hci. }
  split.
  - rewrite levelMethod_run by exact Hlevel.
    unfold lineEvents. rewrite Hclear. by destruct level.
  - rewrite printServerUrls_forEach.
    change (ILogger.info (Logger.as_ILogger this)) with (Logger.info this).
    rewrite forEach_info by exact Hinfo. simpl. f_equal.
    unfold lineEvents. by rewrite Hclear.
Qed.

(** Two local URLs on a logger that may clear the screen. *)
Lemma X3_witness_two_urls :
  LoggerOptions.allowClearScreen
    (default LoggerOptions.empty (Some clearingOptions)) = Some true
  /\ isTTY terminal = true
  /\ truthy_string (CI terminal) = false
  /\ Logger.levelFilter clearingLogger Info = true
  /\ events
       (snd (printServerUrls (H := markHost)
               {| ResolvedServerUrls.local := ["http://a:1/"; "http://b:2/"];
                  ResolvedServerUrls.network := ["http://c:3/"] |}
               HostUndefined
               (Logger.as_ILogger (H := markHost) clearingLogger)
               initial_World))
     = [EvClear;
        consoleLine clearingLogger Info
          (localLine (H := markHost) "http://a:1/");
        EvClear;
        consoleLine clearingLogger Info
          (localLine (H := markHost) "http://b:2/");
        EvClear;
        consoleLine clearingLogger Info
          (networkLine (H := markHost) "http://c:3/")].
Proof.
  repeat (split; [reflexivity |]).
  exact (proj2 (X3_clears_before_every_line (H := markHost)
                  (Some clearingOptions) None terminal Info "x"
                  {| ResolvedServerUrls.local :=
                       ["http://a:1/"; "http://b:2/"];
                     ResolvedServerUrls.network := ["http://c:3/"] |}
                  HostUndefined initial_World
                  eq_refl eq_refl eq_refl eq_refl eq_refl)).
Defined.

(** ** The banner *)

(** X4. The constructor frames the prefix, ["Farm"] when none is given, in
    bold brackets, and does not apply the options' [brandColor]. A later
    [setPrefix] with a non-empty prefix replaces the banner by the new
    prefix in bold brackets, coloured by the [brandColor] passed with it,
    whatever the banner was before, so of two [setPrefix] calls only the
    last one shows; [setPrefix] without a prefix, or with an empty one,
    changes nothing. *)
Theorem X4_banner `{Host} (options : option LoggerOptions.t)
    (levelValues : option (PerLevel.t number)) (proc : Process)
    (o earlier : LoggerOptions.t) (this : Logger.t) (p : string) :
  LoggerOptions.prefix o = Some p ->
  p <> "" ->
  Logger.prefixText (Logger.new options levelValues proc)
  = Colors.bold colors
      ("[ "
       +:+ Colors.bold colors
             (default "Farm"
                (LoggerOptions.prefix (default LoggerOptions.empty options)))
       +:+ " ]")
    +:+ " "
  /\ Logger.prefixText (Logger.setPrefix o this)
     = default id (LoggerOptions.brandColor o)
         (Colors.bold colors ("[ " +:+ Colors.bold colors p +:+ " ]"))
       +:+ " "
  /\ Logger.setPrefix o (Logger.setPrefix earlier this)
     = Logger.setPrefix o this
  /\ (truthy_string (LoggerOptions.prefix earlier) = false ->
      Logger.setPrefix earlier this = this).
Proof.
  intros Hp Hne. split; [reflexivity |].
  assert (Htruthy : truthy_string (LoggerOptions.prefix o) = true).
  { rewrite Hp. by destruct p. }
  split; [| split].
  - unfold Logger.setPrefix. rewrite Htruthy.
    unfold Logger.prefixText, Logger.brandPrefix. simpl. rewrite Hp. simpl.
    by destruct (LoggerOptions.brandColor o).
  - unfold Logger.setPrefix. rewrite Htruthy.
    by destruct (truthy_string (LoggerOptions.prefix earlier)).
  - intros Hnone. unfold Logger.setPrefix. by rewrite Hnone.
Qed.

(** The prefix ["api"] in cyan, after an earlier prefix. *)
Lemma X4_witness_api :
  LoggerOptions.prefix
    {| LoggerOptions.prefix := Some "api";
       LoggerOptions.allowClearScreen := None;
       LoggerOptions.brandColor := Some (mark "cyan");
       LoggerOptions.exit := None |} = Some "api"
  /\ "api" <> ""
  /\ Logger.prefixText
       (Logger.setPrefix (H := markHost)
          {| LoggerOptions.prefix := Some "api";
             LoggerOptions.allowClearScreen := None;
             LoggerOptions.brandColor := Some (mark "cyan");
             LoggerOptions.exit := None |}
          markLogger)
     = "<cyan><b>[ <b>api</b> ]</b></cyan> ".
Proof.
  split; [reflexivity |]. split; [discriminate |].
  exact (proj1 (proj2 (X4_banner (H := markHost) None None terminal
                         {| LoggerOptions.prefix := Some "api";
                            LoggerOptions.allowClearScreen := None;
                            LoggerOptions.brandColor := Some (mark "cyan");
                            LoggerOptions.exit := None |}
                         clearingOptions markLogger "api" eq_refl
                         ltac:(discriminate)))).
Defined.

(** ** Errors logged once *)

(** X5. [hasErrorLogged(v)] is false from module load until the first
    [errorOnce(v)] on a [Logger], through calls of any other kind, plain
    [error(v)] included, and true from then on. Messages are told apart
    by identity: another value, such as the text of the error or a second
    error object with the same content, is not reported as logged. On a
    [NoopLogger] the answer is always false. *)
Theorem X5_hasErrorLogged `{Host} (this : Logger.t) (v v' : value)
    (w0 : World) (before later : list (Receiver * Call)) :
  errorOnceMessages w0 = ∅ ->
  Forall (fun rc => ~ is_errorOnce v rc) before ->
  Forall (fun rc => ~ is_errorOnce v' rc) (before ++ later) ->
  v' <> v ->
  let w := run_calls before w0 in
  let w1 := snd (Logger.errorOnce this v w) in
  let w2 := run_calls later w1 in
  Logger.hasErrorLogged this v w = (Returns false, w)
  /\ Logger.hasErrorLogged this v w2 = (Returns true, w2)
  /\ Logger.hasErrorLogged this v' w2 = (Returns false, w2)
  /\ NoopLogger.hasErrorLogged v w2 = (Returns false, w2).
Proof.
  intros Hempty Hbefore Hother Hne w w1 w2.
  apply Forall_app in Hother as [Hother1 Hother2].
  assert (Hnew : forall u, Forall (fun rc => ~ is_errorOnce u rc) before ->
                           u ∉ errorOnceMessages w).
  { intros u Hu. apply run_calls_error_new; [done |]. rewrite Hempty.
    apply not_elem_of_empty. }
  pose proof (errorOnce_sets this v w) as Hs. unfold once_sets in Hs.
  injection Hs as _ _ Hs. fold w1 in Hs.
  assert (Hin : v ∈ errorOnceMessages w2).
  { apply (run_calls_grows later w1). rewrite Hs.
    by apply elem_of_union_l, elem_of_singleton. }
  assert (Hout : v' ∉ errorOnceMessages w2).
  { apply run_calls_error_new; [done |]. rewrite Hs.
    intros [Heq%elem_of_singleton | Hold]%elem_of_union; [done |].
    by apply (Hnew v'). }
  unfold Logger.hasErrorLogged, Logger.has. repeat split.
  - by rewrite bool_decide_eq_false_2 by by apply Hnew.
  - by rewrite bool_decide_eq_true_2.
  - by rewrite bool_decide_eq_false_2.
Qed.

(** The error at location 0, after a plain [error] on it, and its text. *)
Lemma X5_witness_object_and_text :
  errorOnceMessages enoentWorld = ∅
  /\ Forall (fun rc => ~ is_errorOnce (VErr 0) rc)
       [(OnLogger markLogger, CallError (VErr 0) None)]
  /\ Forall (fun rc => ~ is_errorOnce (VStr "ENOENT") rc)
       ([(OnLogger markLogger, CallError (VErr 0) None)]
        ++ [(OnLogger markLogger, CallWarnOnce "ENOENT")])
  /\ VStr "ENOENT" <> VErr 0
  /\ fst (Logger.hasErrorLogged markLogger (VStr "ENOENT")
            (run_calls (H := markHost)
               [(OnLogger markLogger, CallWarnOnce "ENOENT")]
               (snd (Logger.errorOnce (H := markHost) markLogger (VErr 0)
                       (run_calls (H := markHost)
                          [(OnLogger markLogger, CallError (VErr 0) None)]
                          enoentWorld)))))
     = Returns false.
Proof.
  assert (H1 : Forall (fun rc => ~ is_errorOnce (VErr 0) rc)
       [(OnLogger markLogger, CallError (VErr 0) None)])
    by (repeat constructor; simpl; tauto).
  assert (H2 : Forall (fun rc => ~ is_errorOnce (VStr "ENOENT") rc)
       ([(OnLogger markLogger, CallError (VErr 0) None)]
        ++ [(OnLogger markLogger, CallWarnOnce "ENOENT")]))
    by (repeat constructor; simpl; tauto).
  assert (H3 : VStr "ENOENT" <> VErr 0) by discriminate.
  split; [reflexivity |]. split; [exact H1 |]. split; [exact H2 |].
  split; [exact H3 |].
  destruct (X5_hasErrorLogged (H := markHost) markLogger (VErr 0)
              (VStr "ENOENT") enoentWorld
              [(OnLogger markLogger, CallError (VErr 0) None)]
              [(OnLogger markLogger, CallWarnOnce "ENOENT")]
              eq_refl H1 H2 H3) as (_ & _ & Hother & _).
  by rewrite Hother.
Defined.

(** ** How calls end *)

Lemma always_returns_bind {A B} (m : M A) (f : A -> M B) :
  always_returns m -> (forall a, always_returns (f a)) ->
  always_returns (m ≫= f).
Proof.
  intros Hm Hf w. unfold mbind, M_bind.
  destruct (Hm w) as (a & Ha). destruct (m w) as [x w']. simpl in Ha.
  subst x. apply Hf.
Qed.

Lemma never_throws_bind {A B} (m : M A) (f : A -> M B) :
  never_throws m -> (forall a, never_throws (f a)) -> never_throws (m ≫= f).
Proof.
  intros Hm Hf w. unfold mbind, M_bind. specialize (Hm w).
  destruct (m w) as [[a | t | c |] w']; simpl in *; try done.
  apply Hf.
Qed.

Lemma always_returns_never_throws {A} (c : M A) :
  always_returns c -> never_throws c.
Proof. intros Hc w. destruct (Hc w) as (a & ->). done. Qed.

Lemma never_throws_deref (l : loc) : never_throws (deref l).
Proof. intros w. unfold deref. by destruct (heap w !! l). Qed.

Lemma deref_Stuck (l : loc) (w : World) :
  heap w !! l = None -> deref l w = (Stuck, w).
Proof. intros E. unfold deref. by rewrite E. Qed.

Lemma bind_Stuck {A B} (m : M A) (f : A -> M B) (w w' : World) :
  m w = (Stuck, w') -> (m ≫= f) w = (Stuck, w').
Proof. intros E. unfold mbind, M_bind. by rewrite E. Qed.

Lemma always_returns_forEach {A} (xs : list A) (body : A -> M unit) :
  (forall x, always_returns (body x)) -> always_returns (forEach xs body).
Proof.
  intros Hbody. induction xs as [| x xs IH]; simpl; [by eexists |].
  apply always_returns_bind; [apply Hbody | intros; apply IH].
Qed.

Create HintDb ends.

#[local] Hint Resolve never_throws_deref : ends.

Ltac never_throws_step :=
  repeat first
    [ apply never_throws_bind; [| intros]
    | progress auto with ends
    | solve [intros ?; simpl; done]
    | match goal with
      | |- never_throws (match ?x with _ => _ end) => destruct x
      | |- never_throws (if ?b then _ else _) => destruct b
      end ].

Ltac always_returns_step :=
  repeat first
    [ apply always_returns_bind; [| intros]
    | solve [intros ?; simpl; by eexists]
    | match goal with
      | |- always_returns (match ?x with _ => _ end) => destruct x
      | |- always_returns (if ?b then _ else _) => destruct b
      end ].

Section WithHost.
Context `{Host}.

(** Logging a string returns, whatever the level and the logger. *)
Lemma always_returns_logMessage_string this level s color showBanner :
  always_returns
    (Logger.logMessage this level (VStr s) color showBanner).
Proof.
  unfold Logger.logMessage, Logger.call_clear. simpl. always_returns_step.
Qed.

Lemma never_throws_logMessage this level message color showBanner :
  never_throws (Logger.logMessage this level message color showBanner).
Proof.
  unfold Logger.logMessage, Logger.call_clear.
  destruct message; simpl; never_throws_step.
Qed.

(** What [Logger.error] does after the cause is chained does not throw. *)
Lemma never_throws_error_tail this l (ex : bool) :
  never_throws
    (Logger.logMessage this Error (VErr l) (Some (Colors.red colors)) true ;;
     (if ex then process_exit 1 else mret tt)).
Proof.
  apply never_throws_bind; [apply never_throws_logMessage |].
  intros _ w. by destruct ex.
Qed.

(** How [Logger.error] ends, for any message, options and world: it throws
    in one case only, the refused assignment to [message]. *)
Lemma error_ends this message errorOptions w :
  match fst (Logger.error this message errorOptions w) with
  | Returns _ => True
  | Throws t =>
      t = TypeError_assigning "message"
      /\ exists l c target,
           message = VErr l
           /\ Logger.causeOf errorOptions = Some c
           /\ heap w !! l = Some target
           /\ JsError.message_assignable target = false
  | Exits code => code = 1%Z
  | Stuck => True
  end.
Proof.
  unfold Logger.error.
  set (ex := truthy_bool (Logger.effectiveExit this errorOptions)).
  assert (Htail : forall l w0,
    match fst ((Logger.logMessage this Error (VErr l)
                  (Some (Colors.red colors)) true ;;
                (if ex then process_exit 1 else mret tt)) w0) with
    | Returns _ => True
    | Throws t =>
        t = TypeError_assigning "message"
        /\ exists l c target,
             message = VErr l
             /\ Logger.causeOf errorOptions = Some c
             /\ heap w !! l = Some target
             /\ JsError.message_assignable target = false
    | Exits code => code = 1%Z
    | Stuck => True
    end).
  { intros l w0. pose proof (never_throws_error_tail this l ex w0) as Hnt.
    by destruct (fst _). }
  destruct message as [s | l].
  - erewrite bind_Returns by apply alloc_run.
    destruct (Logger.causeOf errorOptions) as [c |];
      [| rewrite bind_mret; apply Htail].
    set (w1 := set_heap (heap w ++ [JsError.create s (Some "")]) w).
    destruct (heap w1 !! c) as [co |] eqn:Hc.
    + erewrite bind_Returns; [apply Htail |].
      erewrite bind_Returns by (apply deref_run, lookup_last).
      erewrite bind_Returns by by apply deref_run.
      eapply assign_run; [apply lookup_last | reflexivity].
    + erewrite bind_Stuck; [done |].
      erewrite bind_Returns by (apply deref_run, lookup_last).
      apply bind_Stuck. by apply deref_Stuck.
  - rewrite bind_mret.
    destruct (Logger.causeOf errorOptions) as [c |];
      [| rewrite bind_mret; apply Htail].
    destruct (heap w !! l) as [target |] eqn:Hl.
    2:{ erewrite bind_Stuck; [done |]. apply bind_Stuck.
        by apply deref_Stuck. }
    destruct (heap w !! c) as [co |] eqn:Hc.
    2:{ erewrite bind_Stuck; [done |].
        erewrite bind_Returns by by apply deref_run.
        apply bind_Stuck. by apply deref_Stuck. }
    destruct (JsError.message_assignable target) eqn:Hcan.
    + erewrite bind_Returns; [apply Htail |].
      erewrite bind_Returns by by apply deref_run.
      erewrite bind_Returns by by apply deref_run.
      by eapply assign_run.
    + erewrite bind_Throws.
      2:{ erewrite bind_Returns by by apply deref_run.
          erewrite bind_Returns by by apply deref_run.
          by eapply assign_refused. }
      simpl. split; [done |]. by exists l, c, target.
Qed.

End WithHost.

(** X6. A method of a [Logger] throws in one case only: [error], given an
    error object and a cause, throws the [TypeError] of the assignment to
    [message] when the object refuses it. [trace], [debug], [info], [warn],
    [infoOnce], [warnOnce], the two queries and [printServerUrls] return
    whatever the logger's options, its [exit] option included; [errorOnce]
    never throws; only [error] and [errorOnce] can end the process, and
    then with status 1. *)
Theorem X6_logger_throws_only_refused_chain `{Host} (this : Logger.t) (c : Call)
    (w : World) :
  match fst (run (OnLogger this) c w) with
  | Returns _ => True
  | Throws t =>
      t = TypeError_assigning "message"
      /\ exists l errorOptions cause target,
           c = CallError (VErr l) errorOptions
           /\ Logger.causeOf errorOptions = Some cause
           /\ heap w !! l = Some target
           /\ JsError.message_assignable target = false
  | Exits code => code = 1%Z /\ is_error_call c
  | Stuck => is_error_call c
  end.
Proof.
  assert (Hret : ~ is_error_call c ->
                 exists a, fst (run (OnLogger this) c w) = Returns a).
  { intros Hc.
    destruct c; simpl in Hc |- *; try (by destruct Hc);
      try apply always_returns_logMessage_string;
      try (by eexists).
    - unfold Logger.infoOnce, Logger.info, Logger.has.
      apply always_returns_bind; [intros ?; by eexists |]. intros seen.
      destruct (negb seen); [| intros ?; by eexists].
      apply always_returns_bind; [intros ?; by eexists |]. intros _.
      apply always_returns_logMessage_string.
    - unfold Logger.warnOnce, Logger.warn, Logger.has.
      apply always_returns_bind; [intros ?; by eexists |]. intros seen.
      destruct (negb seen); [| intros ?; by eexists].
      apply always_returns_bind; [intros ?; by eexists |]. intros _.
      apply always_returns_logMessage_string.
    - unfold printServerUrls.
      repeat (apply always_returns_bind; [| intros]);
        try (apply always_returns_forEach; intros);
        try apply always_returns_logMessage_string.
      destruct (_ && _); [| intros ?; by eexists].
      apply always_returns_logMessage_string. }
  destruct c; try (destruct Hret as (a & ->); [by intros [] | done]).
  - pose proof (error_ends this message errorOptions w) as Hends.
    simpl. destruct (fst (Logger.error this message errorOptions w));
      try done.
    destruct Hends as (-> & l & cause & target & -> & Hc & Hl & Hcan).
    split; [done |]. by exists l, errorOptions, cause, target.
  - simpl. unfold Logger.errorOnce, mbind at 1, M_bind at 1, Logger.has.
    simpl. destruct (negb _); [| done].
    pose proof (error_ends this message None
                  (snd (Logger.record_error message w))) as Hends.
    change ((Logger.record_error message ;; Logger.error this message None)
              w)
      with (Logger.error this message None
              (snd (Logger.record_error message w))).
    destruct (fst (Logger.error this message None
                     (snd (Logger.record_error message w))));
      try done.
    by destruct Hends as (_ & l & cause & target & _ & Hc & _).
Qed.

(** ** Error objects *)

Lemma keeps_heap_bind {A B} (m : M A) (f : A -> M B) :
  keeps_heap m -> (forall a, keeps_heap (f a)) -> keeps_heap (m ≫= f).
Proof.
  intros Hm Hf w. unfold mbind, M_bind. specialize (Hm w).
  destruct (m w) as [[a | t | c |] w']; simpl in *; try exact Hm.
  by rewrite Hf.
Qed.

Lemma keeps_heap_deref (l : loc) : keeps_heap (deref l).
Proof. intros w. unfold deref. by destruct (heap w !! l). Qed.

Lemma keeps_heap_toStr (message : value) : keeps_heap (toStr message).
Proof.
  destruct message; simpl; [by intros w |].
  apply keeps_heap_bind; [apply keeps_heap_deref | by intros o w].
Qed.

Lemma keeps_heap_forEach {A} (xs : list A) (body : A -> M unit) :
  (forall x, keeps_heap (body x)) -> keeps_heap (forEach xs body).
Proof.
  intros Hbody. induction xs as [| x xs IH]; simpl; [by intros w |].
  apply keeps_heap_bind; [apply Hbody | intros; apply IH].
Qed.

Section WithHost.
Context `{Host}.

Lemma keeps_heap_logMessage this level message color showBanner :
  keeps_heap (Logger.logMessage this level message color showBanner).
Proof.
  unfold Logger.logMessage.
  destruct (Logger.levelFilter this level); [| by intros w].
  apply keeps_heap_bind.
  - destruct (Logger.canClearScreen this); [| by intros w].
    by destruct (Logger.clear this); intros w.
  - intros _. apply keeps_heap_bind; [| by intros text w].
    destruct color; [| apply keeps_heap_toStr].
    apply keeps_heap_bind; [apply keeps_heap_toStr | by intros s w].
Qed.

(** The calls other than [error] and [errorOnce] leave the heap alone. *)
Lemma keeps_heap_run this c :
  from_module c -> ~ is_error_call c -> keeps_heap (run (OnLogger this) c).
Proof.
  intros Hc Hne.
  destruct c; simpl in *; try contradiction; try (by destruct Hne);
    try apply keeps_heap_logMessage; try (by intros w).
  - unfold Logger.infoOnce, Logger.info, Logger.has.
    apply keeps_heap_bind; [by intros w |]. intros seen.
    destruct (negb seen); [| by intros w].
    apply keeps_heap_bind; [by intros w |]. intros _.
    apply keeps_heap_logMessage.
  - unfold Logger.warnOnce, Logger.warn, Logger.has.
    apply keeps_heap_bind; [by intros w |]. intros seen.
    destruct (negb seen); [| by intros w].
    apply keeps_heap_bind; [by intros w |]. intros _.
    apply keeps_heap_logMessage.
  - unfold printServerUrls.
    repeat (apply keeps_heap_bind; [| intros]);
      try (apply keeps_heap_forEach; intros);
      try apply keeps_heap_logMessage.
    destruct (_ && _); [apply keeps_heap_logMessage | by intros w].
Qed.

End WithHost.

(** X7. [Logger.error] touches one error object at most, the one it
    reports. Every other object, the cause included when it is another
    object, is as before; a string message adds exactly one object to the
    heap and an object message adds none; of the reported object only
    [message] can differ, its name, stack and cause are kept. Every call
    other than [error] and [errorOnce] leaves all error objects alone. *)
Theorem X7_error_heap_frame `{Host} (this : Logger.t) (message : value)
    (errorOptions : option ErrorOptions.t) (w : World)
    (target : JsError.t) (co : option JsError.t) (other : loc) (c : Call) :
  reported w message = Some target ->
  cause_is w errorOptions co ->
  other <> reported_loc w message ->
  from_module c ->
  ~ is_error_call c ->
  let w' := snd (Logger.error this message errorOptions w) in
  heap w' !! other = heap w !! other
  /\ length (heap w')
     = length (heap w) + match message with VStr _ => 1 | VErr _ => 0 end
  /\ (exists o,
        heap w' !! reported_loc w message = Some o
        /\ JsError.name o = JsError.name target
        /\ JsError.stack o = JsError.stack target
        /\ JsError.cause o = JsError.cause target)
  /\ heap (snd (run (OnLogger this) c w)) = heap w.
Proof.
  intros Hrep Hcause Hother Hc Hne w'. subst w'.
  rewrite (error_any this message errorOptions w target co) by done.
  destruct (chain_allowed message target co) eqn:Hallowed.
  2:{ destruct co as [o |], message as [s | l]; try discriminate.
      simpl in *. repeat split; [lia | | by apply keeps_heap_run].
      by exists target. }
  simpl. split; [| split; [| split]].
  - destruct message as [s | l]; simpl in *.
    + destruct (decide (other < length (heap w))) as [Hlt | Hge].
      * by rewrite lookup_app_l.
      * rewrite !lookup_ge_None_2; [done | lia |].
        rewrite length_app. simpl. lia.
    + by rewrite list_lookup_insert_ne.
  - destruct message as [s | l]; simpl.
    + rewrite length_app. simpl. lia.
    + rewrite length_insert. lia.
  - exists (chained target co). split.
    + destruct message as [s | l]; simpl in *.
      * apply lookup_last.
      * apply list_lookup_insert_eq. by eapply lookup_lt_Some.
    + by destruct co.
  - by apply keeps_heap_run.
Qed.

(** A string message with the cause at location 0: the cause is kept. *)
Lemma X7_witness_cause_kept :
  reported enoentWorld (VStr "build failed")
  = Some (JsError.create "build failed" (Some ""))
  /\ cause_is enoentWorld (Some fatalOptions) (Some enoent)
  /\ 0 <> reported_loc enoentWorld (VStr "build failed")
  /\ from_module (CallWarnOnce "slow")
  /\ ~ is_error_call (CallWarnOnce "slow")
  /\ heap (snd (Logger.error (H := markHost) markLogger
                  (VStr "build failed") (Some fatalOptions) enoentWorld))
     !! 0 = Some enoent.
Proof.
  assert (Hne : 0 <> reported_loc enoentWorld (VStr "build failed"))
    by discriminate.
  split; [reflexivity |]. split; [reflexivity |]. split; [exact Hne |].
  split; [exact I |]. split; [exact (fun x => x) |].
  exact (proj1 (X7_error_heap_frame (H := markHost) markLogger
                  (VStr "build failed") (Some fatalOptions) enoentWorld
                  (JsError.create "build failed" (Some "")) (Some enoent)
                  0 (CallWarnOnce "slow")
                  eq_refl eq_refl Hne I (fun x => x))).
Defined.

(** X8. The cause text accumulates. Reporting the same error object
    twice with the same cause, another object, appends the
    ["Caused by"] text to the object's message at each call, provided the
    object lets its message be assigned: after the second call the message
    ends in two copies of it. The cause itself is not changed. An object
    that refuses the assignment keeps its message, and each call throws
    the [TypeError] of the assignment. *)
Theorem X8_cause_text_accumulates `{Host} (this : Logger.t) (l c : loc)
    (eo : ErrorOptions.t) (w : World) (target co : JsError.t) :
  heap w !! l = Some target ->
  heap w !! c = Some co ->
  l <> c ->
  Logger.causeOf (Some eo) = Some c ->
  let suffix := LF +:+ "Caused by: " +:+ Logger.causeText co in
  let w1 := snd (Logger.error this (VErr l) (Some eo) w) in
  let w2 := snd (Logger.error this (VErr l) (Some eo) w1) in
  (JsError.message_assignable target = true ->
   heap w1 !! l
   = Some (JsError.set_message (JsError.message target +:+ suffix) target)
   /\ heap w2 !! l
      = Some (JsError.set_message
                ((JsError.message target +:+ suffix) +:+ suffix) target)
   /\ heap w2 !! c = Some co)
  /\ (JsError.message_assignable target = false ->
      Logger.error this (VErr l) (Some eo) w
      = (Throws (TypeError_assigning "message"), w)).
Proof.
  intros Hl Hc Hne Hcause suffix w1 w2.
  assert (Hcause_is : forall w0, heap w0 !! c = Some co ->
                                 cause_is w0 (Some eo) (Some co)).
  { intros w0 Hw0. unfold cause_is. by rewrite Hcause. }
  split; [| intros Hrefuse; by eapply error_refused; eauto].
  intros Hcan.
  assert (Hlt : l < length (heap w)) by by eapply lookup_lt_Some.
  assert (E1 := error_run this (VErr l) (Some eo) w target (Some co)
                  Hl (Hcause_is w Hc) Hcan).
  assert (Hl1 : heap w1 !! l
    = Some (JsError.set_message (JsError.message target +:+ suffix) target)).
  { subst w1. rewrite E1. simpl. by apply list_lookup_insert_eq. }
  assert (Hc1 : heap w1 !! c = Some co).
  { subst w1. rewrite E1. simpl. by rewrite list_lookup_insert_ne. }
  assert (E2 := error_run this (VErr l) (Some eo) w1 _ (Some co)
                  Hl1 (Hcause_is w1 Hc1) Hcan).
  split; [exact Hl1 |]. subst w2. rewrite E2. simpl. split.
  - apply list_lookup_insert_eq. by eapply lookup_lt_Some.
  - by rewrite list_lookup_insert_ne.
Qed.

(** The build error reported twice with the error at location 0 as its
    cause. *)
Lemma X8_witness_twice :
  heap twoErrorsWorld !! 1 = Some buildFailed
  /\ heap twoErrorsWorld !! 0 = Some enoent
  /\ 1 <> 0
  /\ Logger.causeOf (Some causeOptions) = Some 0
  /\ JsError.message_assignable buildFailed = true
  /\ heap (snd (Logger.error (H := markHost) markLogger (VErr 1)
                  (Some causeOptions)
                  (snd (Logger.error (H := markHost) markLogger (VErr 1)
                          (Some causeOptions) twoErrorsWorld))))
     !! 1
     = Some
         (JsError.set_message
            (("build failed" +:+ LF +:+ "Caused by: Error: ENOENT" +:+ LF
              +:+ "    at open (fs.js:1:1)")
             +:+ LF +:+ "Caused by: Error: ENOENT" +:+ LF
             +:+ "    at open (fs.js:1:1)")
            buildFailed).
Proof.
  assert (Hne : 1 <> 0) by discriminate.
  split; [reflexivity |]. split; [reflexivity |]. split; [exact Hne |].
  split; [reflexivity |]. split; [reflexivity |].
  exact (proj1 (proj2 (proj1 (X8_cause_text_accumulates (H := markHost)
                                markLogger 1 0 causeOptions twoErrorsWorld
                                buildFailed enoent
                                eq_refl eq_refl Hne eq_refl)
                         eq_refl))).
Defined.

(** X9. [errorOnce] passes no options to [error], so the logger's own
    [exit] option decides. On a logger constructed with [exit: true] the
    first [errorOnce] of a message records it, reports it and ends the
    process with status 1. Once the message is recorded, by whatever
    logger, [errorOnce] returns without reporting and without ending the
    process. *)
Theorem X9_errorOnce_exits_once `{Host} (options : LoggerOptions.t)
    (levelValues : option (PerLevel.t number)) (proc : Process)
    (message : value) (w later : World) (target : JsError.t) :
  LoggerOptions.exit options = Some true ->
  message ∉ errorOnceMessages w ->
  reported w message = Some target ->
  message ∈ errorOnceMessages later ->
  let this := Logger.new (Some options) levelValues proc in
  fst (Logger.errorOnce this message w) = Exits 1
  /\ message ∈ errorOnceMessages (snd (Logger.errorOnce this message w))
  /\ events (snd (Logger.errorOnce this message w))
     = events w ++ errorEvents this target
  /\ Logger.errorOnce this message later = (Returns tt, later).
Proof.
  intros Hexit Hnew Hrep Hseen this.
  split; [| split; [| split]].
  - rewrite errorOnce_fresh by done.
    rewrite (error_run this message None _ target None) by done.
    unfold exitCompletion, Logger.effectiveExit. subst this.
    by rewrite new_exit; simpl; rewrite Hexit.
  - pose proof (errorOnce_sets this message w) as Hs.
    unfold once_sets in Hs. injection Hs as _ _ ->.
    by apply elem_of_union_l, elem_of_singleton.
  - rewrite errorOnce_fresh by done.
    by rewrite (error_run this message None _ target None).
  - by apply errorOnce_seen.
Qed.

(** The string ["boom"], new in one world and recorded in another. *)
Lemma X9_witness_boom :
  LoggerOptions.exit exitOptions = Some true
  /\ (VStr "boom" ∉ errorOnceMessages initial_World)
  /\ reported initial_World (VStr "boom")
     = Some (JsError.create "boom" (Some ""))
  /\ (VStr "boom"
      ∈ errorOnceMessages
          (snd (Logger.errorOnce (H := markHost) markLogger (VStr "boom")
                  initial_World)))
  /\ fst (Logger.errorOnce (H := markHost)
            (Logger.new (H := markHost) (Some exitOptions) None terminal)
            (VStr "boom") initial_World) = Exits 1
  /\ fst (Logger.errorOnce (H := markHost)
            (Logger.new (H := markHost) (Some exitOptions) None terminal)
            (VStr "boom")
            (snd (Logger.errorOnce (H := markHost) markLogger (VStr "boom")
                    initial_World))) = Returns tt.
Proof.
  assert (Hnew : VStr "boom" ∉ errorOnceMessages initial_World)
    by apply not_elem_of_empty.
  assert (Hseen : VStr "boom"
      ∈ errorOnceMessages
          (snd (Logger.errorOnce (H := markHost) markLogger (VStr "boom")
                  initial_World))).
  { change (VStr "boom"
            ∈ {[ VStr "boom" ]} ∪ errorOnceMessages initial_World).
    by apply elem_of_union_l, elem_of_singleton. }
  split; [reflexivity |]. split; [exact Hnew |]. split; [reflexivity |].
  split; [exact Hseen |].
  destruct (X9_errorOnce_exits_once (H := markHost) exitOptions None
              terminal (VStr "boom") initial_World _
              (JsError.create "boom" (Some "")) eq_refl Hnew eq_refl Hseen)
    as (Hexit & _ & _ & Hlater).
  split; [exact Hexit | by rewrite Hlater].
Defined.

(** ** Lines of a stack *)

Lemma split_LF_cons (s : string) :
  exists first others, split_LF s = first :: others.
Proof.
  induction s as [| c rest (first & others & IH)]; simpl; [by eauto |].
  destruct (Ascii.eqb c "010"); [by eauto |]. rewrite IH. by eauto.
Qed.

Lemma join_LF_String (c : ascii) (first : string) (others : list string) :
  join LF (String c first :: others) = String c (join LF (first :: others)).
Proof. by destruct others. Qed.

(** Joining the lines of a string gives the string back. *)
Lemma join_split_LF (s : string) : join LF (split_LF s) = s.
Proof.
  induction s as [| c rest IH]; [done |]. simpl.
  destruct (Ascii.eqb c "010") eqn:Hc.
  - apply Ascii.eqb_eq in Hc as ->.
    destruct (split_LF_cons rest) as (first & others & Hsplit).
    rewrite Hsplit in IH |- *.
    change (join LF (EmptyString :: first :: others))
      with (String "010" (join LF (first :: others))).
    by rewrite IH.
  - destruct (split_LF_cons rest) as (first & others & Hsplit).
    rewrite Hsplit in IH |- *. by rewrite join_LF_String, IH.
Qed.

Lemma filter_all {A} (P : A -> Prop) `{!forall x, Decision (P x)}
    (l : list A) :
  Forall P l -> filter P l = l.
Proof.
  induction 1 as [| x l Hx _ IH]; [done |].
  by rewrite filter_cons_True, IH.
Qed.

Lemma filter_none {A} (P : A -> Prop) `{!forall x, Decision (P x)}
    (l : list A) :
  Forall (fun x => ~ P x) l -> filter P l = [].
Proof.
  induction 1 as [| x l Hx _ IH]; [done |].
  by rewrite filter_cons_False.
Qed.

(** X10. Cleaning a stack twice is cleaning it once. A stack all of whose
    lines match [/^\s*at/] is left as it is, character for character; a
    stack none of whose lines matches becomes the empty string. *)
Theorem X10_cleanStack_idempotent (stack : string) :
  cleanStack (cleanStack stack) = cleanStack stack
  /\ (Forall (fun l => test_at l = true) (split_LF stack) ->
      cleanStack stack = stack)
  /\ (Forall (fun l => test_at l = false) (split_LF stack) ->
      cleanStack stack = "").
Proof.
  split; [| split].
  - destruct (cleanStack_lines stack) as [Hall Hsplit].
    unfold cleanStack at 1. rewrite Hsplit. unfold cleanStack.
    destruct (filter _ (split_LF stack)) as [| first others] eqn:Hkept;
      [done |].
    by rewrite filter_all.
  - intros Hall. unfold cleanStack. rewrite filter_all by done.
    apply join_split_LF.
  - intros Hnone. unfold cleanStack. rewrite filter_none; [done |].
    eapply Forall_impl; [exact Hnone |]. simpl. intros l Hl. by rewrite Hl.
Qed.

(** Two frames with different indentation. *)
Lemma X10_witness_frames :
  Forall (fun l => test_at l = true)
    (split_LF ("    at a (x.js:1:1)" +:+ LF +:+ "at b (y.js:2:2)"))
  /\ cleanStack ("    at a (x.js:1:1)" +:+ LF +:+ "at b (y.js:2:2)")
     = "    at a (x.js:1:1)" +:+ LF +:+ "at b (y.js:2:2)".
Proof.
  assert (Hall : Forall (fun l => test_at l = true)
    (split_LF ("    at a (x.js:1:1)" +:+ LF +:+ "at b (y.js:2:2)")))
    by (repeat constructor).
  split; [exact Hall |].
  exact (proj1 (proj2 (X10_cleanStack_idempotent _)) Hall).
Defined.

(** ** The port of a URL *)

Lemma string_app_assoc (a b c : string) :
  (a +:+ b) +:+ c = a +:+ b +:+ c.
Proof.
  induction a as [| x a IH]; [done |].
  change (String x ((a +:+ b) +:+ c) = String x (a +:+ b +:+ c)).
  by rewrite IH.
Qed.

Lemma span_digits_spec (s : string) :
  s = (span_digits s).1 +:+ (span_digits s).2
  /\ all_digits (span_digits s).1 = true.
Proof.
  induction s as [| c rest [IHeq IHall]]; [done |]. simpl.
  destruct (is_digit c) eqn:Hc; [| done].
  destruct (span_digits rest) as [ds tl]. simpl in *.
  split; [| by rewrite Hc].
  change (String c rest = String c (ds +:+ tl)). by rewrite <- IHeq.
Qed.

Lemma span_digits_port (port post : string) :
  all_digits port = true ->
  span_digits (port +:+ "/" +:+ post) = (port, "/" +:+ post).
Proof.
  induction port as [| c port IH]; [done |]. simpl.
  intros [Hc Hport]%andb_true_iff. by rewrite Hc, IH.
Qed.

(** At a colon that starts no port the function moves on. *)
Lemma replace_port_colon f rest :
  (forall port post, rest = port +:+ "/" +:+ post -> port <> "" ->
                     all_digits port = true -> False) ->
  replace_port f (String ":" rest) = String ":" (replace_port f rest).
Proof.
  intros Hno. simpl.
  destruct (span_digits_spec rest) as [Heq Hall].
  destruct (span_digits rest) as [[| d ds] [| slash tl]]; simpl in *;
    try reflexivity.
  destruct (Ascii.eqb slash "/") eqn:Hslash; [| reflexivity].
  apply Ascii.eqb_eq in Hslash as ->.
  exfalso. by apply (Hno (String d ds) tl).
Qed.

(** What follows a colon either is a digit run and a slash, or is not. *)
Lemma port_shape (ds tl : string) :
  (exists d ds' tl', ds = String d ds' /\ tl = String "/" tl')
  \/ (forall d ds' tl', ds = String d ds' -> tl = String "/" tl' -> False).
Proof.
  destruct ds as [| d ds']; [by right |].
  destruct tl as [| slash tl']; [by right |].
  destruct (Ascii.eqb slash "/") eqn:Hslash.
  - apply Ascii.eqb_eq in Hslash as ->. left. by eauto.
  - right. intros ? ? ? _ [= ->]. by rewrite Ascii.eqb_refl in Hslash.
Qed.

Lemma has_port_nil : ~ has_port "".
Proof. intros (pre & port & post & Heq & _). by destruct pre. Qed.

(** The port found is the first one: nothing before it is a port. *)
Lemma replace_port_cases (f : string -> string) (url : string) :
  (~ has_port url /\ replace_port f url = url)
  \/ (exists pre port post,
        url = pre +:+ ":" +:+ port +:+ "/" +:+ post
        /\ port <> "" /\ all_digits port = true
        /\ ~ has_port pre
        /\ replace_port f url = pre +:+ ":" +:+ f port +:+ "/" +:+ post).
Proof.
  induction url as [| c rest IH]; [left; split; [apply has_port_nil | done] |].
  destruct (Ascii.eqb c ":") eqn:Hc.
  - apply Ascii.eqb_eq in Hc as ->.
    destruct (span_digits_spec rest) as [Heq Hall].
    destruct (span_digits rest) as [ds tl] eqn:Hspan. simpl in Heq, Hall.
    destruct (port_shape ds tl) as [(d & ds' & tl' & -> & ->) | Hno].
    + right. exists "", (String d ds'), tl'. simpl. rewrite Hspan. simpl.
      repeat split; [by rewrite Heq | done | done | apply has_port_nil].
    + assert (Hhere : forall port post, rest = port +:+ "/" +:+ post ->
                        port <> "" -> all_digits port = true -> False).
      { intros port post -> Hne Hport.
        rewrite span_digits_port in Hspan by done.
        injection Hspan as <- <-. destruct port as [| d port]; [done |].
        by apply (Hno d port post). }
      rewrite replace_port_colon by exact Hhere.
      destruct IH as [[Hnone ->] | (pre & port & post & -> & Hne & Hport
                                    & Hpre & ->)].
      * left. split; [| done].
        intros ([| c' pre] & port & post & Heq' & Hne & Hport);
          simpl in Heq'; injection Heq' as Heq'.
        -- by apply (Hhere port post).
        -- subst c'. apply Hnone. by exists pre, port, post.
      * right. exists (String ":" pre), port, post.
        repeat split; try done.
        intros ([| c' pre'] & port' & post' & Heq' & Hne' & Hport');
          simpl in Heq'; injection Heq' as Heq'.
        -- apply (Hhere port' (post' +:+ ":" +:+ port +:+ "/" +:+ post));
             [| done | done].
           rewrite Heq'. by rewrite !string_app_assoc.
        -- subst c'. apply Hpre. by exists pre', port', post'.
  - assert (Hstep : replace_port f (String c rest)
                    = String c (replace_port f rest))
      by (simpl; by rewrite Hc).
    rewrite Hstep.
    assert (Hcolon : c <> ":"%char)
      by (intros ->; by rewrite Ascii.eqb_refl in Hc).
    destruct IH as [[Hnone ->] | (pre & port & post & -> & Hne & Hport
                                  & Hpre & ->)].
    + left. split; [| done].
      intros ([| c' pre] & port & post & Heq' & Hne & Hport);
        simpl in Heq'; injection Heq' as Heq'; [done |].
      subst c'. apply Hnone. by exists pre, port, post.
    + right. exists (String c pre), port, post.
      repeat split; try done.
      intros ([| c' pre'] & port' & post' & Heq' & Hne' & Hport');
        simpl in Heq'; injection Heq' as Heq'; [done |].
      subst c'. apply Hpre. by exists pre', port', post'.
Qed.

(** X11. [colorUrl] marks one port at most. If the URL holds a colon
    followed by digits and a slash, the digits of the first such place are
    put in bold and every other character is kept where it is; otherwise
    the URL is kept whole. Cyan is applied to the result in both cases. *)
Theorem X11_colorUrl_first_port `{Host} (url : string) :
  (~ has_port url -> colorUrl url = Colors.cyan colors url)
  /\ (has_port url ->
      exists pre port post,
        url = pre +:+ ":" +:+ port +:+ "/" +:+ post
        /\ port <> "" /\ all_digits port = true
        /\ ~ has_port pre
        /\ colorUrl url
           = Colors.cyan colors
               (pre +:+ ":" +:+ Colors.bold colors port +:+ "/" +:+ post)).
Proof.
  unfold colorUrl.
  destruct (replace_port_cases (Colors.bold colors) url)
    as [[Hnone ->] | (pre & port & post & Heq & Hne & Hport & Hpre & ->)].
  - split; [done | by intros Hhas].
  - split.
    + intros Hnone. exfalso. apply Hnone. by exists pre, port, post.
    + intros _. by exists pre, port, post.
Qed.

(** An IPv6 host: the colons of the address start no port. *)
Lemma X11_witness_ipv6 :
  has_port "http://[::1]:3000/x:80/"
  /\ exists pre port post,
       "http://[::1]:3000/x:80/" = pre +:+ ":" +:+ port +:+ "/" +:+ post
       /\ port <> "" /\ all_digits port = true
       /\ ~ has_port pre
       /\ colorUrl (H := markHost) "http://[::1]:3000/x:80/"
          = mark "cyan" (pre +:+ ":" +:+ mark "b" port +:+ "/" +:+ post).
Proof.
  assert (Hhas : has_port "http://[::1]:3000/x:80/").
  { exists "http://[::1]", "3000", "x:80/". by repeat split. }
  split; [exact Hhas |].
  exact (proj2 (X11_colorUrl_first_port (H := markHost)
                  "http://[::1]:3000/x:80/") Hhas).
Defined.

(** X12. With colours switched off, that is when the colour functions
    return their argument, the URL comes out of [colorUrl] unchanged, and
    the lines [printServerUrls] passes to the logger are the plain texts
    with the URL in them. *)
Theorem X12_plain_lines `{Host} (url : string) :
  (forall s, Colors.bold colors s = s) ->
  (forall s, Colors.cyan colors s = s) ->
  (forall s, Colors.green colors s = s) ->
  (forall s, Colors.dim colors s = s) ->
  colorUrl url = url
  /\ localLine url = "➜ Local:   " +:+ url
  /\ networkLine url = "➜ Network: " +:+ url
  /\ hostHintLine = "  ➜  Network: use --host to expose".
Proof.
  intros Hbold Hcyan Hgreen Hdim.
  assert (Hurl : colorUrl url = url).
  { unfold colorUrl. rewrite Hcyan.
    destruct (replace_port_cases (Colors.bold colors) url)
      as [[_ ->] | (pre & port & post & Heq & _ & _ & _ & ->)]; [done |].
    by rewrite Hbold. }
  unfold localLine, networkLine, hostHintLine.
  rewrite Hurl, !Hbold, !Hdim, !Hgreen. by repeat split.
Qed.

(** The host whose colour functions are the identity. *)
Lemma X12_witness_plainHost :
  (forall s, Colors.bold (colors (Host := plainHost)) s = s)
  /\ (forall s, Colors.cyan (colors (Host := plainHost)) s = s)
  /\ (forall s, Colors.green (colors (Host := plainHost)) s = s)
  /\ (forall s, Colors.dim (colors (Host := plainHost)) s = s)
  /\ localLine (H := plainHost) "http://localhost:3000/"
     = "➜ Local:   http://localhost:3000/".
Proof.
  repeat (split; [reflexivity |]).
  exact (proj1 (proj2 (X12_plain_lines (H := plainHost)
                         "http://localhost:3000/"
                         (fun s => eq_refl) (fun s => eq_refl)
                         (fun s => eq_refl) (fun s => eq_refl)))).
Defined.

(** ** The test double against the logger *)

(** X13. Where [Logger.error] rewrites the message of the error it is
    given, [NoopLogger.error] with [exit: true] leaves the name, the
    message and the stack of that object as they are and sets its [cause]
    when one is supplied, keeping the old [cause] otherwise; this holds
    when the object lets its [cause] be assigned, or no cause is supplied,
    or the message is a string. It changes no other object, writes nothing
    and records nothing. A string message is wrapped in one new object,
    which keeps the stack the engine captured, where [Logger.error] empties
    it. An error object that refuses the assignment of [cause] is not
    thrown: the call throws the [TypeError] of the assignment and changes
    nothing. *)
Theorem X13_noop_error_frame `{Host} (message : value) (eo : ErrorOptions.t)
    (w : World) (target : JsError.t) (other : loc) :
  ErrorOptions.exit eo = Own (Some true) ->
  reported w message = Some target ->
  other <> reported_loc w message ->
  let w' := snd (NoopLogger.error message (Some eo) w) in
  (cause_allowed message target (Logger.causeOf (Some eo)) = true ->
   fst (NoopLogger.error message (Some eo) w)
   = Throws (ThrownError (reported_loc w message))
   /\ (exists o,
        heap w' !! reported_loc w message = Some o
        /\ JsError.name o = JsError.name target
        /\ JsError.message o = JsError.message target
        /\ JsError.stack o
           = match message with
             | VStr s => Some (captureStack s)
             | VErr _ => JsError.stack target
             end
        /\ JsError.cause o
           = match Logger.causeOf (Some eo) with
             | Some c => Some c
             | None => JsError.cause target
             end)
   /\ heap w' !! other = heap w !! other
   /\ length (heap w')
      = length (heap w) + match message with VStr _ => 1 | VErr _ => 0 end
   /\ events w' = events w
   /\ once_sets w' = once_sets w)
  /\ (cause_allowed message target (Logger.causeOf (Some eo)) = false ->
      NoopLogger.error message (Some eo) w
      = (Throws (TypeError_assigning "cause"), w)).
Proof.
  intros Hexit Hrep Hother w'. subst w'. split.
  2:{ intros Hrefuse. unfold cause_allowed in Hrefuse.
      destruct (Logger.causeOf (Some eo)) as [c |] eqn:Hcause;
        [| discriminate].
      destruct message as [s | l]; [discriminate |]. simpl in Hrep.
      eapply noop_error_refused; eauto. by rewrite Hexit. }
  intros Hallowed.
  rewrite (noop_error_run message eo w target)
    by (by rewrite Hexit || done).
  clear Hallowed. generalize (Logger.causeOf (Some eo)). intros cz.
  simpl. split; [done |]. split; [| split; [| split; [| done]]].
  - exists (thrownObject message target cz). split.
    + destruct message as [s | l]; simpl in *.
      * apply lookup_last.
      * apply list_lookup_insert_eq. by eapply lookup_lt_Some.
    + unfold thrownObject.
      destruct message as [s | l], cz;
        simpl in Hrep |- *; try (injection Hrep as <-);
        repeat split; reflexivity.
  - destruct message as [s | l]; simpl in *.
    + destruct (decide (other < length (heap w))) as [Hlt | Hge].
      * by rewrite lookup_app_l.
      * rewrite !lookup_ge_None_2; [done | lia |].
        rewrite length_app. simpl. lia.
    + by rewrite list_lookup_insert_ne.
  - destruct message as [s | l]; simpl.
    + rewrite length_app. simpl. lia.
    + rewrite length_insert. lia.
Qed.

(** The build error thrown with the error at location 0 as its cause. *)
Lemma X13_witness_build_error :
  ErrorOptions.exit fatalOptions = Own (Some true)
  /\ reported twoErrorsWorld (VErr 1) = Some buildFailed
  /\ 0 <> reported_loc twoErrorsWorld (VErr 1)
  /\ cause_allowed (VErr 1) buildFailed
       (Logger.causeOf (Some fatalOptions)) = true
  /\ fst (NoopLogger.error (H := markHost) (VErr 1)
            (Some fatalOptions) twoErrorsWorld)
     = Throws (ThrownError 1)
  /\ heap (snd (NoopLogger.error (H := markHost) (VErr 1)
                  (Some fatalOptions) twoErrorsWorld))
     !! 0 = Some enoent.
Proof.
  assert (Hne : 0 <> reported_loc twoErrorsWorld (VErr 1)) by discriminate.
  split; [reflexivity |]. split; [reflexivity |]. split; [exact Hne |].
  split; [reflexivity |].
  destruct (proj1 (X13_noop_error_frame (H := markHost) (VErr 1)
                     fatalOptions twoErrorsWorld buildFailed 0
                     eq_refl eq_refl Hne) eq_refl)
    as (Hthrows & _ & Hkept & _).
  split; [exact Hthrows | exact Hkept].
Defined.
